(** * train.py: the dual-direction training loop and its regulariser

    A shallow embedding of [src/train.py]: the early-stopping epoch loop of
    [main], the reverse-direction input derivation (row-0 rotation and length
    offset), the alignment regulariser [get_diff], the per-batch losses of the
    training loop and of [validate], and the optimiser step.

    Conventions.
    - Validation perplexities and [best_validate] are Python floats
      (binary64); they are Rocq's primitive floats, whose comparison is the
      IEEE one the interpreter runs.
    - A real tensor is its shape and its entries by index.  The tensor
      operations are written once, over a class of scalars, and read in
      three arithmetics: the [float32] of the code (IEEE binary32 with
      rounding to nearest even, infinities and NaN, module [Float32]), for
      what is said of the sign and the value of the regulariser and of the
      two losses; exact rationals [Q], an idealisation without rounding, for
      what is said of divisors, counts and sums of statistics; and
      rationals that carry, next to their value, their derivative with
      respect to every parameter, for autograd.
    - Integer tensors (token ids, lengths) are lists of rows of 64-bit
      signed integers; the one arithmetic operation on them, the length
      offset, wraps.
    - Parameters live in a store keyed by handle, which the two models and
      the optimiser share.
    - An operation that raises in Python returns [None]. *)

From Stdlib Require Import ZArith List Lia QArith Qabs Floats Permutation Sorted.
From stdpp Require Import gmap.
Import ListNotations.

Set Warnings "-inexact-float".

(** * Part I: the embedding *)

(** ** IEEE comparison of validation perplexities *)

Module FloatOrder.

Local Open Scope Z_scope.

(** A perplexity that is a number. *)
Definition not_nan (x : float) : Prop := Prim2SF x <> S754_nan.

(** [x >= y] as the interpreter evaluates it. *)
Definition float_ge (x y : float) : Prop := (y <=? x)%float = true.

(** A key that orders the non-NaN values exactly as [SFcompare] does:
    sign class first, then exponent, then mantissa. *)
Definition key (x : spec_float) : Z * (Z * Z) :=
  match x with
  | S754_nan => (0, (0, 0))
  | S754_infinity true => (-2, (0, 0))
  | S754_infinity false => (2, (0, 0))
  | S754_zero _ => (0, (0, 0))
  | S754_finite true m e => (-1, (- e, - Z.pos m))
  | S754_finite false m e => (1, (e, Z.pos m))
  end.

Definition key_le (a b : Z * (Z * Z)) : Prop :=
  fst a < fst b \/
  (fst a = fst b /\
   (fst (snd a) < fst (snd b) \/
    (fst (snd a) = fst (snd b) /\ snd (snd a) <= snd (snd b)))).

End FloatOrder.

(** ** The training controller: checkpoint restore and the epoch loop of [main] *)

Module Controller.

Local Open Scope Z_scope.

(** Modelled from the spec: the checkpoint collaborator ([utils.save_checkpoint]
    and [utils.load_checkpoint] of [seq2seq/utils.py], which is not among the
    sources).  A checkpoint holds at least the epoch number and the
    best-validation metric; [save_checkpoint(.., epoch, metric)] writes them,
    [load_checkpoint] returns the stored state, or nothing when no file
    exists.  Parameter and optimiser state play no part in the epoch loop and
    are left out. *)
Record checkpoint : Type := Checkpoint {
  ck_last_epoch : Z;
  ck_best_metric : float
}.

Definition save_checkpoint (epoch : Z) (metric : float)
    (file : option checkpoint) : option checkpoint :=
  Some (Checkpoint epoch metric).

Definition load_checkpoint (file : option checkpoint) : option checkpoint :=
  file.

(** The command-line arguments the loop reads. *)
Record args : Type := Args {
  max_epoch : Z;
  patience : Z;
  save_interval : Z
}.

(** The locals of [main] that survive an epoch, and the checkpoint file. *)
Record controller : Type := Controller {
  bad_epochs : Z;
  best_validate : float;
  checkpoint_file : option checkpoint
}.

(** [main], lines 124-130: [last_epoch] comes from the restored state,
    [bad_epochs] and [best_validate] are set afresh. *)
Definition restored_last_epoch (state_dict : option checkpoint) : Z :=
  match state_dict with
  | Some s => ck_last_epoch s
  | None => -1
  end.

Definition startup (file : option checkpoint) : Z * controller :=
  let state_dict := load_checkpoint file in
  (restored_last_epoch state_dict, Controller 0 infinity file).

(** Python's [range(a, b)]. *)
Definition range (a b : Z) : list Z :=
  map (fun i => a + Z.of_nat i) (seq 0 (Z.to_nat (b - a))).

(** Lines 234-238. *)
Definition observe (valid_perplexity : float) (st : controller) : controller :=
  if (valid_perplexity <? best_validate st)%float
  then Controller 0 valid_perplexity (checkpoint_file st)
  else Controller (bad_epochs st + 1) (best_validate st) (checkpoint_file st).

(** Lines 230-231; the caller has excluded a zero interval. *)
Definition save_if_due (a : args) (epoch : Z) (valid_perplexity : float)
    (st : controller) : controller :=
  if epoch mod save_interval a =? 0
  then Controller (bad_epochs st) (best_validate st)
         (save_checkpoint epoch valid_perplexity (checkpoint_file st))
  else st.

(** How the loop ends: the [break] of line 241, exhaustion of the range, or
    the [ZeroDivisionError] of [epoch % 0] on line 230. *)
Inductive outcome : Type :=
  | EARLY_STOPPED
  | MAX_EPOCH_REACHED
  | RAISED.

Section Loop.

(** The perplexity the validator returns in each epoch. *)
Variable validate : Z -> float.
Variable a : args.

(** One pass of the loop body after training, lines 225-238. *)
Definition epoch_body (epoch : Z) (st : controller) : controller :=
  let valid_perplexity := validate epoch in
  observe valid_perplexity (save_if_due a epoch valid_perplexity st).

(** The [for] loop of line 132; the result lists the state at the end of
    every completed epoch. *)
Fixpoint epoch_loop (epochs : list Z) (st : controller)
    : list (Z * controller) * outcome :=
  match epochs with
  | [] => ([], MAX_EPOCH_REACHED)
  | epoch :: rest =>
      if save_interval a =? 0 then ([], RAISED)
      else
        let st' := epoch_body epoch st in
        if patience a <=? bad_epochs st' then ([(epoch, st')], EARLY_STOPPED)
        else
          let '(tr, out) := epoch_loop rest st' in
          ((epoch, st') :: tr, out)
  end.

Definition main (file : option checkpoint) : list (Z * controller) * outcome :=
  let '(last_epoch, st) := startup file in
  epoch_loop (range (last_epoch + 1) (max_epoch a)) st.

End Loop.

(** The validator of a test run: it returns the given perplexities in
    successive epochs (NaN once they are used up). *)
Definition validate_of (perplexities : list float) (epoch : Z) : float :=
  nth (Z.to_nat epoch) perplexities nan.

(** The state an epoch starts from, given the completed epochs before it,
    and the [best_validate] history of a run. *)
Definition state_before (st0 : controller) (pre : list (Z * controller)) : controller :=
  List.last (map snd pre) st0.

Definition best_history (st0 : controller) (tr : list (Z * controller)) : list float :=
  best_validate st0 :: map (fun p => best_validate (snd p)) tr.

(** What early stopping sees of a completed epoch: its number, [bad_epochs]
    and [best_validate]. *)
Definition early_stop_view (p : Z * controller) : Z * (Z * float) :=
  (fst p, (bad_epochs (snd p), best_validate (snd p))).

(** The perplexities of the spec's early-stopping scenario. *)
Definition scenario : list float := [5.0; 4.0; 4.2; 4.3; 4.4; 4.5]%float.

(** What the spec's round trip expects of a restart: the saved metric as the
    first [best_validate]. *)
Definition startup_spec (file : option checkpoint) : Z * controller :=
  match load_checkpoint file with
  | Some s => (ck_last_epoch s, Controller 0 (ck_best_metric s) file)
  | None => (-1, Controller 0 infinity file)
  end.

End Controller.

(** ** Real-valued tensors and the alignment regulariser [get_diff] *)

Module Tensor.

(** The scalars a real tensor holds.  [detach] cuts a value from the
    computation graph: it keeps the number and drops what autograd tracks. *)
Class Scalar (A : Type) : Type := {
  szero : A;
  sadd : A -> A -> A;
  ssub : A -> A -> A;
  smul : A -> A -> A;
  sdiv : A -> A -> A;
  sabs : A -> A;
  of_int : Z -> A;
  detach : A -> A
}.

(** Plain numbers: exact rationals, nothing tracked.  An idealisation of
    the tensor arithmetic: nothing is rounded, nothing overflows, and
    division by zero yields 0 where the tensor library yields an infinity or
    NaN.  The arithmetic of the code is [Float32.F32_Scalar]. *)
#[export] Instance Q_Scalar : Scalar Q := {
  szero := 0%Q;
  sadd := Qplus;
  ssub := Qminus;
  smul := Qmult;
  sdiv := Qdiv;
  sabs := Qabs;
  of_int := inject_Z;
  detach := fun x => x
}.

Section Ops.

Context {A : Type} {SA : Scalar A}.

(** [f 0 + f 1 + ... + f (n-1)]. *)
Fixpoint sum_upto (n : nat) (f : nat -> A) : A :=
  match n with
  | O => szero
  | S k => sadd (sum_upto k f) (f k)
  end.

(** A tensor is its shape and its entries by index. *)
Record tensor3 : Type := Tensor3 {
  size0 : nat;
  size1 : nat;
  size2 : nat;
  get3 : nat -> nat -> nat -> A
}.

Record tensor2 : Type := Tensor2 {
  rows2 : nat;
  cols2 : nat;
  get2 : nat -> nat -> A
}.

Record tensor1 : Type := Tensor1 {
  len1 : nat;
  get1 : nat -> A
}.

(** [t.transpose(0, 1)] and [t.transpose(1, 2)]. *)
Definition transpose01 (t : tensor3) : tensor3 :=
  Tensor3 (size1 t) (size0 t) (size2 t) (fun i j k => get3 t j i k).

Definition transpose12 (t : tensor3) : tensor3 :=
  Tensor3 (size0 t) (size2 t) (size1 t) (fun b i j => get3 t b j i).

(** [torch.bmm(x, y)]: batched matrix product of [B, n, k] and [B, k, m];
    any other pair of shapes raises. *)
Definition bmm (x y : tensor3) : option tensor3 :=
  if ((size0 x =? size0 y) && (size2 x =? size1 y))%nat
  then Some (Tensor3 (size0 x) (size1 x) (size2 y)
               (fun b i j => sum_upto (size2 x)
                               (fun l => smul (get3 x b i l) (get3 y b l j))))
  else None.

(** [torch.diagonal(t, dim1=1, dim2=2)]: shape [B, min(n, m)]. *)
Definition diagonal12 (t : tensor3) : tensor2 :=
  Tensor2 (size0 t) (Nat.min (size1 t) (size2 t)) (fun b i => get3 t b i i).

(** [t.view(-1)]: the entries in row-major order. *)
Definition view_flat (t : tensor3) : tensor1 :=
  Tensor1 (size0 t * size1 t * size2 t)
    (fun k => get3 t (k / (size1 t * size2 t))
                     ((k / size2 t) mod size1 t)
                     (k mod size2 t))%nat.

(** [torch.norm(t, p=1)]: the sum of the absolute values of all entries. *)
Definition norm1_flat (t : tensor1) : A :=
  sum_upto (len1 t) (fun k => sabs (get1 t k)).

Definition norm1_mat (t : tensor2) : A :=
  sum_upto (rows2 t) (fun b => sum_upto (cols2 t) (fun i => sabs (get2 t b i))).

(** [len(t)] is the size of the first dimension. *)
Definition len_flat (t : tensor1) : Z := Z.of_nat (len1 t).
Definition len_mat (t : tensor2) : Z := Z.of_nat (rows2 t).

(** [calculate_diff], lines 61-65, on the product [diff] of line 60. *)
Definition numerator (diff : tensor3) : A :=
  let diag := diagonal12 diff in
  sdiv (norm1_mat diag) (of_int (len_mat diag)).

Definition denominator (diff : tensor3) : A :=
  let diag := diagonal12 diff in
  let diff := view_flat diff in
  sdiv (ssub (norm1_flat diff) (norm1_mat diag))
       (of_int (len_flat diff - len_mat diag)).

Definition diag_ratio (diff : tensor3) : A :=
  sdiv (numerator diff) (denominator diff).

(** [calculate_diff], lines 58-65. *)
Definition calculate_diff (acontext src_out_other : tensor3) : option A :=
  let src_out_other := transpose12 src_out_other in
  diff ← bmm acontext src_out_other;
  Some (diag_ratio diff).

(** [get_diff], lines 57-82. *)
Definition get_diff (att src_out att_rev src_out_rev : tensor3) : option (A * A) :=
  let src_out := transpose01 src_out in
  let src_out_rev := transpose01 src_out_rev in
  acontext ← bmm att src_out;
  acontext_rev ← bmm att_rev src_out_rev;
  d ← calculate_diff acontext src_out_rev;
  d_rev ← calculate_diff acontext_rev src_out;
  Some (detach d, detach d_rev).

(** The two product matrices [get_diff] takes its ratios of. *)
Definition diff_matrices (att src_out att_rev src_out_rev : tensor3)
    : option (tensor3 * tensor3) :=
  acontext ← bmm att (transpose01 src_out);
  acontext_rev ← bmm att_rev (transpose01 src_out_rev);
  diff ← bmm acontext (transpose12 (transpose01 src_out_rev));
  diff_rev ← bmm acontext_rev (transpose12 (transpose01 src_out));
  Some (diff, diff_rev).

(** [c * t], entry by entry. *)
Definition scale3 (c : A) (t : tensor3) : tensor3 :=
  Tensor3 (size0 t) (size1 t) (size2 t) (fun b i j => smul c (get3 t b i j)).

(** The ratio in the spec's words: the L1 norm of the diagonal over the
    number of diagonal elements, divided by the L1 norm of the rest over
    the number of the remaining elements. *)
Definition count_diag (diff : tensor3) : Z :=
  Z.of_nat (size0 diff * Nat.min (size1 diff) (size2 diff)).

Definition count_all (diff : tensor3) : Z :=
  Z.of_nat (size0 diff * size1 diff * size2 diff).

Definition norm1_all (diff : tensor3) : A :=
  sum_upto (size0 diff) (fun b =>
    sum_upto (size1 diff) (fun i =>
      sum_upto (size2 diff) (fun j => sabs (get3 diff b i j)))).

Definition spec_ratio (diff : tensor3) : A :=
  let diag := diagonal12 diff in
  sdiv (sdiv (norm1_mat diag) (of_int (count_diag diff)))
       (sdiv (ssub (norm1_all diff) (norm1_mat diag))
             (of_int (count_all diff - count_diag diff))).

End Ops.

Arguments tensor3 : clear implicits.
Arguments tensor2 : clear implicits.
Arguments tensor1 : clear implicits.

(** The tensor of shape [B, n, m] filled with ones, for test inputs. *)
Definition ones (B n m : nat) : tensor3 Q := Tensor3 B n m (fun _ _ _ => 1%Q).

(** [t'] is [c * t]: same shape, every entry multiplied by [c]. *)
Definition scaled (c : Q) (t t' : tensor3 Q) : Prop :=
  size0 t' = size0 t /\ size1 t' = size1 t /\ size2 t' = size2 t /\
  forall b i j, (get3 t' b i j == c * get3 t b i j)%Q.

(** A scalar that autograd tracks: its value and its partial derivative
    with respect to each parameter [p : P] of the two models. *)
Record tracked (P : Type) : Type := Tracked {
  value : Q;
  grad : P -> Q
}.

Arguments Tracked {P} _ _.
Arguments value {P} _.
Arguments grad {P} _ _.

Definition Qsgn (x : Q) : Q := inject_Z (Z.sgn (Qnum x)).

(** The derivative rules of the operations; a constant and a detached value
    have no derivative. *)
#[export] Instance tracked_Scalar (P : Type) : Scalar (tracked P) := {
  szero := Tracked 0%Q (fun _ => 0%Q);
  sadd := fun x y => Tracked (value x + value y)%Q (fun p => grad x p + grad y p)%Q;
  ssub := fun x y => Tracked (value x - value y)%Q (fun p => grad x p - grad y p)%Q;
  smul := fun x y =>
    Tracked (value x * value y)%Q
            (fun p => grad x p * value y + value x * grad y p)%Q;
  sdiv := fun x y =>
    Tracked (value x / value y)%Q
            (fun p => (grad x p * value y - value x * grad y p)
                        / (value y * value y))%Q;
  sabs := fun x => Tracked (Qabs (value x)) (fun p => Qsgn (value x) * grad x p)%Q;
  of_int := fun z => Tracked (inject_Z z) (fun _ => 0%Q);
  detach := fun x => Tracked (value x) (fun _ => 0%Q)
}.

End Tensor.

(** ** The regulariser in the arithmetic of the code: binary32 *)

Module Float32.

Import Tensor.
Local Open Scope Z_scope.

(** The tensors of [get_diff] and of the losses hold [float32] values:
    24 bits of mantissa, infinities at exponent 128.  The operations are the
    IEEE ones of the standard library's specification, rounding to nearest
    even, with infinities and NaN. *)
Definition prec : Z := 24.
Definition emax : Z := 128.

(** A Python integer that meets a tensor is converted to its type. *)
Definition of_Z32 (z : Z) : spec_float := binary_normalize prec emax z 0 false.

#[export] Instance F32_Scalar : Scalar spec_float := {
  szero := S754_zero false;
  sadd := SFadd prec emax;
  ssub := SFsub prec emax;
  smul := SFmul prec emax;
  sdiv := SFdiv prec emax;
  sabs := SFabs;
  of_int := of_Z32;
  detach := fun x => x
}.

(** [0 <= x], as the interpreter evaluates it: false on NaN. *)
Definition nonneg32 (x : spec_float) : Prop := SFleb (S754_zero false) x = true.

(** A positive number that is not an infinity. *)
Definition positive_finite (x : spec_float) : Prop :=
  match x with
  | S754_finite false _ _ => True
  | _ => False
  end.

(** Zero of either sign, a positive number or plus infinity. *)
Definition not_negative (x : spec_float) : Prop :=
  match x with
  | S754_zero _ | S754_finite false _ _ | S754_infinity false => True
  | _ => False
  end.

(** NaN, or a number that is not negative. *)
Definition nan_or_not_negative (x : spec_float) : Prop := x = S754_nan \/ not_negative x.

(** A number of sign [s], zero included; a number of sign [s] other than
    zero. *)
Definition signed (s : bool) (x : spec_float) : Prop :=
  match x with
  | S754_zero s' | S754_finite s' _ _ | S754_infinity s' => s' = s
  | S754_nan => False
  end.

Definition signed_nonzero (s : bool) (x : spec_float) : Prop :=
  match x with
  | S754_finite s' _ _ | S754_infinity s' => s' = s
  | _ => False
  end.

(** The two off-diagonal denominators of a call of [get_diff]. *)
Definition denominators (att src_out att_rev src_out_rev : tensor3 spec_float)
    : option (spec_float * spec_float) :=
  '(diff, diff_rev) ← diff_matrices att src_out att_rev src_out_rev;
  Some (denominator diff, denominator diff_rev).

(** Test inputs: a batch of one, one decoder step and one source position
    in the forward direction, two of each in the reverse direction, hidden
    size 1.  One third is the [float32] nearest to it, 0.33333334. *)
Definition one32 : spec_float := of_Z32 1.
Definition three32 : spec_float := of_Z32 3.
Definition third32 : spec_float := SFdiv prec emax one32 three32.

Definition att1 : tensor3 spec_float := Tensor3 1 1 1 (fun _ _ _ => one32).
Definition src_out1 : tensor3 spec_float := Tensor3 1 1 1 (fun _ _ _ => one32).
Definition att_rev1 : tensor3 spec_float :=
  Tensor3 1 2 2 (fun _ _ s => if (s =? 0)%nat then one32 else S754_zero false).
Definition src_out_rev1 : tensor3 spec_float :=
  Tensor3 2 1 1 (fun s _ _ => if (s =? 0)%nat then one32 else third32).

(** The tensor of shape [B, n, m] filled with ones. *)
Definition ones32 (B n m : nat) : tensor3 spec_float := Tensor3 B n m (fun _ _ _ => one32).

End Float32.

(** ** One batch: reverse-direction inputs and the two losses *)

Module Step.

Import Tensor.
Local Open Scope Z_scope.

(** A collated batch; token tensors are given by their rows. *)
Record batch : Type := Batch {
  src_tokens : list (list Z);
  src_lengths : list Z;
  tgt_inputs : list (list Z);
  tgt_tokens : list (list Z);
  num_tokens : Z
}.

(** [t.size(1)] of a tensor with at least one row. *)
Definition size1 (t : list (list Z)) : nat := length (hd [] t).

(** Arithmetic on [int64] entries wraps around. *)
Definition wrap64 (z : Z) : Z := (z + 2 ^ 63) mod 2 ^ 64 - 2 ^ 63.

(** Lines 161-163 (and 267-269): the clone of [src_tokens] with row 0
    overwritten.  The slice assignment writes [row0[0 : S-1]] at positions
    [1 .. S-1]; the index assignment then writes [row0[S-1]] at position 0.
    Indexing row 0 of an empty batch, or position [S-1] of an empty row,
    raises [IndexError]. *)
Definition rotate_row0 (src_tokens : list (list Z)) : option (list (list Z)) :=
  match src_tokens with
  | [] => None
  | row0 :: rest =>
      let S := length row0 in
      let row := take 1 row0 ++ take (S - 1) row0 in
      x ← row0 !! (S - 1)%nat;
      Some (<[0%nat := x]> row :: rest)
  end.

(** Lines 164-165 (and 270-271). *)
Definition adjust_lengths (sample : batch) : list Z :=
  let offset := Z.of_nat (size1 (tgt_inputs sample))
                - Z.of_nat (size1 (src_tokens sample)) in
  map (fun l => wrap64 (l + offset)) (src_lengths sample).

Definition shift_adapter (sample : batch) : option (list (list Z) * list Z) :=
  src_inputs ← rotate_row0 (src_tokens sample);
  Some (src_inputs, adjust_lengths sample).

(** The rotation the spec's data model describes: the element at position 0
    moves to the last position, all others shift left by one. *)
Definition rotate_backward (row : list Z) : list Z := drop 1 row ++ take 1 row.

(** The rotation the spec's component contract describes: the last element
    moves to position 0, all others shift up by one. *)
Definition rotate_forward (row : list Z) : list Z :=
  drop (length row - 1) row ++ take (length row - 1) row.

(** A batch as the collater builds it: at least one sequence, at least one
    token per row 0, lengths that are lengths, and sizes an [int64] holds. *)
Definition well_formed (sample : batch) : Prop :=
  src_tokens sample <> [] /\
  (0 < size1 (src_tokens sample))%nat /\
  Forall (fun l => 0 <= l <= Z.of_nat (size1 (src_tokens sample))) (src_lengths sample) /\
  Z.of_nat (size1 (src_tokens sample)) < 2 ^ 63 /\
  Z.of_nat (size1 (tgt_inputs sample)) < 2 ^ 63.

Section Losses.

Context {A : Type} {SA : Scalar A}.

(** The decoder outputs, the two models and the summed cross-entropy
    [criterion] (with its padding mask) are collaborators: any functions of
    these types. *)
Variable logits : Type.
Variable model model_rev :
  list (list Z) -> list Z -> list (list Z) -> (logits * tensor3 A) * tensor3 A.
Variable criterion : logits -> list Z -> A.

(** The training loop, lines 157-199. *)
Definition train_batch_loss (sample : batch) : option A :=
  let '((output, att), src_out) :=
    model (src_tokens sample) (src_lengths sample) (tgt_inputs sample) in
  '(src_inputs, tgt_lengths) ← shift_adapter sample;
  let '((output_rev, att_rev), src_out_rev) :=
    model_rev (tgt_tokens sample) tgt_lengths src_inputs in
  '(d, d_rev) ← get_diff att src_out att_rev src_out_rev;
  Some (sadd (sadd (sadd
          (sdiv (criterion output (concat (tgt_tokens sample)))
                (of_int (Z.of_nat (length (src_lengths sample)))))
          d)
          (sdiv (criterion output_rev (concat (src_tokens sample)))
                (of_int (Z.of_nat (length tgt_lengths)))))
          d_rev).

(** [validate], lines 265-276. *)
Definition validate_batch_loss (sample : batch) : option A :=
  let '((output, attn_scores), src_out) :=
    model (src_tokens sample) (src_lengths sample) (tgt_inputs sample) in
  '(src_inputs, tgt_lengths) ← shift_adapter sample;
  let '((output_rev, attn_scores_rev), src_out_rev) :=
    model_rev (tgt_tokens sample) tgt_lengths src_inputs in
  '(d, d_rev) ← get_diff attn_scores src_out attn_scores_rev src_out_rev;
  Some (sadd (sadd (sadd
          (criterion output (concat (tgt_tokens sample)))
          d)
          (sdiv (criterion output_rev (concat (src_tokens sample)))
                (of_int (Z.of_nat (length tgt_lengths)))))
          d_rev).

(** The training loss with the two regulariser terms removed. *)
Definition cross_entropy_loss (sample : batch) : option A :=
  let '((output, att), src_out) :=
    model (src_tokens sample) (src_lengths sample) (tgt_inputs sample) in
  '(src_inputs, tgt_lengths) ← shift_adapter sample;
  let '((output_rev, att_rev), src_out_rev) :=
    model_rev (tgt_tokens sample) tgt_lengths src_inputs in
  Some (sadd
          (sdiv (criterion output (concat (tgt_tokens sample)))
                (of_int (Z.of_nat (length (src_lengths sample)))))
          (sdiv (criterion output_rev (concat (src_tokens sample)))
                (of_int (Z.of_nat (length tgt_lengths))))).

End Losses.

(** A two-sequence test batch and constant collaborators for it. *)
Definition sample2 : batch :=
  Batch [[11; 12]; [13; 14]] [2; 2] [[21; 22]; [23; 24]] [[22; 25]; [24; 25]] 4.

Definition model_const (src : list (list Z)) (lengths : list Z) (inputs : list (list Z))
    : (unit * tensor3 Q) * tensor3 Q :=
  ((tt, ones 2 2 2), ones 2 2 1).

Definition criterion_const (output : unit) (target : list Z) : Q := 6%Q.

(** The same with tracked scalars: parameters are numbered, the attention
    weights and the cross-entropy depend on every one of them. *)
Definition model_tracked (src : list (list Z)) (lengths : list Z) (inputs : list (list Z))
    : (unit * tensor3 (tracked nat)) * tensor3 (tracked nat) :=
  ((tt, Tensor3 2 2 2 (fun _ _ _ => Tracked 1%Q (fun p => inject_Z (Z.of_nat p)))),
   Tensor3 2 2 1 (fun _ _ _ => Tracked 1%Q (fun _ => 1%Q))).

Definition criterion_tracked (output : unit) (target : list Z) : tracked nat :=
  Tracked 6%Q (fun _ => 2%Q).

End Step.

(** ** Constant collaborators in binary32, for test runs of the two losses *)

Module Step32.

Import Tensor Float32 Step.

(** Both models return attention weights and encoder outputs of ones for a
    batch of two sequences; the summed cross-entropy is 6. *)
Definition model_const32 (src : list (list Z)) (lengths : list Z) (inputs : list (list Z))
    : (unit * tensor3 spec_float) * tensor3 spec_float :=
  ((tt, ones32 2 2 2), ones32 2 2 1).

Definition criterion_const32 (output : unit) (target : list Z) : spec_float := of_Z32 6.

End Step32.

(** ** Parameters, gradients and the optimiser step *)

Module Optimizer.

Section Adam.

(** A parameter tensor and Adam's per-parameter state are opaque values;
    the arithmetic of accumulation, clipping and the Adam rule are any
    functions of these types. *)
Variable V : Type.
Variable S : Type.
Variable accumulate : V -> V -> V.
Variable clip_by : Q -> list V -> V -> V.
Variable adam_rule : Q -> option S -> V -> V -> V * S.

(** The store the models and the optimiser share: each parameter, named by
    a handle, has a value, possibly a gradient, possibly optimiser state. *)
Record world : Type := World {
  params : gmap positive V;
  grads : gmap positive V;
  adam_state : gmap positive S
}.

(** An optimiser holds the handles it was constructed over. *)
Record optimizer : Type := Optimizer {
  param_groups : list positive;
  lr : Q
}.

(** Line 121: [torch.optim.Adam(model.parameters(), args.lr)]. *)
Definition Adam (parameters : list positive) (learning_rate : Q) : optimizer :=
  Optimizer parameters learning_rate.

(** Line 200, [loss.backward()]: every parameter the loss depends on
    accumulates its gradient [g !! p]. *)
Definition backward (g : gmap positive V) (w : world) : world :=
  World (params w)
        (union_with (fun old new => Some (accumulate old new)) (grads w) g)
        (adam_state w).

(** Line 201, [clip_grad_norm_(model.parameters(), clip_norm)]: rescales the
    gradients of the given parameters in place. *)
Definition clip_grad_norm_ (parameters : list positive) (max_norm : Q)
    (w : world) : world :=
  let gs := omap (fun p => grads w !! p) parameters in
  World (params w)
        (fold_left (fun gr p => alter (clip_by max_norm gs) p gr) parameters (grads w))
        (adam_state w).

(** Line 206, [optimizer.step()]: each parameter of the optimiser that has
    a gradient is updated by the Adam rule. *)
Definition step_param (learning_rate : Q) (w : world) (p : positive) : world :=
  match params w !! p, grads w !! p with
  | Some v, Some g =>
      let '(v', s') := adam_rule learning_rate (adam_state w !! p) v g in
      World (<[p := v']> (params w)) (grads w) (<[p := s']> (adam_state w))
  | _, _ => w
  end.

Definition step (opt : optimizer) (w : world) : world :=
  fold_left (step_param (lr opt)) (param_groups opt) w.

(** Line 207, [optimizer.zero_grad()]. *)
Definition zero_grad (opt : optimizer) (w : world) : world :=
  World (params w)
        (fold_left (fun gr p => delete p gr) (param_groups opt) (grads w))
        (adam_state w).

(** Lines 200-207 for one batch whose loss backpropagates the gradients [g]. *)
Definition update (model_parameters : list positive) (opt : optimizer)
    (clip_norm : Q) (w : world) (g : gmap positive V) : world :=
  zero_grad opt (step opt (clip_grad_norm_ model_parameters clip_norm (backward g w))).

(** The batches of the training loop, in order. *)
Definition train (model_parameters : list positive) (opt : optimizer)
    (clip_norm : Q) (batches : list (gmap positive V)) (w : world) : world :=
  fold_left (update model_parameters opt clip_norm) batches w.

End Adam.

(** A test store: parameter 1 belongs to the forward model, parameter 2 to
    the reverse model; values and gradients are rationals, Adam is replaced
    by plain gradient descent. *)
Definition world2 : world Q unit :=
  World Q unit {[ 1%positive := 10%Q; 2%positive := 20%Q ]} ∅ ∅.

Definition descent (learning_rate : Q) (s : option unit) (v g : Q) : Q * unit :=
  ((v - learning_rate * g)%Q, tt).

Definition gradients2 : gmap positive Q := {[ 1%positive := 1%Q; 2%positive := 1%Q ]}.

End Optimizer.

(** ** Running statistics of an epoch and the validation pass *)

Module Report.

Import Tensor Step.
Local Open Scope Z_scope.

(** The accumulators of lines 139-145: loss, learning rate, token count,
    batch size, gradient norm and clip count. *)
Record stats : Type := Stats {
  st_loss : Q;
  st_lr : Q;
  st_num_tokens : Q;
  st_batch_size : Z;
  st_grad_norm : Q;
  st_clip : Z
}.

Definition stats0 : stats := Stats 0 0 0 0 0 0.

(** What a training step hands to the statistics besides its loss: the
    batch, the optimiser's learning rate and the gradient norm that
    [clip_grad_norm_] returned.  An empty sample is [None]. *)
Record step_obs : Type := StepObs {
  ob_sample : batch;
  ob_lr : Q;
  ob_grad_norm : Q
}.

(** Lines 210-217.  [num_tokens] and the sizes are Python integers: dividing
    by a zero one raises [ZeroDivisionError]. *)
Definition update_stats (clip_norm : Q) (ob : step_obs) (total_loss : Q)
    (s : stats) : option stats :=
  let sample := ob_sample ob in
  if num_tokens sample =? 0 then None
  else if (length (src_tokens sample) =? 0)%nat then None
  else Some (Stats
    (st_loss s + total_loss * inject_Z (Z.of_nat (length (src_lengths sample)))
                 / inject_Z (num_tokens sample))%Q
    (st_lr s + ob_lr ob)%Q
    (st_num_tokens s + inject_Z (num_tokens sample)
                       / inject_Z (Z.of_nat (length (src_tokens sample))))%Q
    (st_batch_size s + Z.of_nat (length (src_tokens sample)))
    (st_grad_norm s + ob_grad_norm ob)%Q
    (st_clip s + (if Qlt_le_dec clip_norm (ob_grad_norm ob) then 1 else 0))).

(** Lines 221-222: every accumulator over [len(progress_bar)], the number of
    batches of the loader, skipped ones included. *)
Definition epoch_averages (batches : nat) (s : stats) : option (list Q) :=
  if (batches =? 0)%nat then None
  else
    let n := inject_Z (Z.of_nat batches) in
    Some [ (st_loss s / n)%Q; (st_lr s / n)%Q; (st_num_tokens s / n)%Q;
           (inject_Z (st_batch_size s) / n)%Q; (st_grad_norm s / n)%Q;
           (inject_Z (st_clip s) / n)%Q ].

Section Passes.

Variable logits : Type.
Variable model model_rev :
  list (list Z) -> list Z -> list (list Z) -> (logits * tensor3 Q) * tensor3 Q.
Variable criterion : logits -> list Z -> Q.

(** Lines 157-199 once more, keeping [d] and [d_rev] next to the loss. *)
Definition train_batch_terms (sample : batch) : option (Q * Q * Q) :=
  let '((output, att), src_out) :=
    model (src_tokens sample) (src_lengths sample) (tgt_inputs sample) in
  '(src_inputs, tgt_lengths) ← shift_adapter sample;
  let '((output_rev, att_rev), src_out_rev) :=
    model_rev (tgt_tokens sample) tgt_lengths src_inputs in
  '(d, d_rev) ← get_diff att src_out att_rev src_out_rev;
  Some ((criterion output (concat (tgt_tokens sample))
           / inject_Z (Z.of_nat (length (src_lengths sample))) + d
         + criterion output_rev (concat (src_tokens sample))
           / inject_Z (Z.of_nat (length tgt_lengths)) + d_rev)%Q,
        d, d_rev).

(** Line 210: the loss that is reported. *)
Definition total_loss (sample : batch) : option Q :=
  '(loss, d, d_rev) ← train_batch_terms sample;
  Some (loss - d - d_rev)%Q.

(** The statistics of the training loop of one epoch, lines 150-219; an
    empty sample is skipped by the [continue] of line 154. *)
Fixpoint train_stats (clip_norm : Q) (batches : list (option step_obs))
    (s : stats) : option stats :=
  match batches with
  | [] => Some s
  | None :: rest => train_stats clip_norm rest s
  | Some ob :: rest =>
      tl ← total_loss (ob_sample ob);
      s' ← update_stats clip_norm ob tl s;
      train_stats clip_norm rest s'
  end.

(** [validate], lines 258-280: summed loss, token count and batch size. *)
Fixpoint validate_totals (batches : list (option batch)) (acc : Q * Z * Z)
    : option (Q * Z * Z) :=
  match batches with
  | [] => Some acc
  | None :: rest => validate_totals rest acc
  | Some sample :: rest =>
      loss ← validate_batch_loss logits model model_rev criterion sample;
      let '(valid_loss, tokens, batch_size) := acc in
      validate_totals rest ((valid_loss + loss)%Q, tokens + num_tokens sample,
                            batch_size + Z.of_nat (length (src_tokens sample)))
  end.

(** Lines 283-285: the loss per token; the totals are Python numbers, and
    dividing by a zero one raises [ZeroDivisionError]. *)
Definition validate_loss (batches : list (option batch)) : option Q :=
  '(valid_loss, tokens, batch_size) ← validate_totals batches (0%Q, 0, 0);
  if tokens =? 0 then None
  else if batch_size =? 0 then None
  else Some (valid_loss / inject_Z tokens)%Q.

(** Lines 284 and 291: the perplexity, for any exponential [exp]. *)
Definition validate (exp : Q -> float) (batches : list (option batch)) : option float :=
  exp <$> validate_loss batches.

End Passes.

(** The samples that are not skipped. *)
Definition non_empty {X : Type} (batches : list (option X)) : list X :=
  omap (fun b => b) batches.

Definition sumQ (l : list Q) : Q := fold_right Qplus 0%Q l.
Definition sumZ (l : list Z) : Z := fold_right Z.add 0 l.

End Report.

(** * Part II: properties *)

(** ** IEEE comparison facts used by the early-stopping loop *)

Module FloatOrderFacts.

Import FloatOrder.
Local Open Scope Z_scope.

Lemma SFcompare_refl (x : spec_float) :
  x <> S754_nan -> SFcompare x x = Some Eq.
Proof.
  destruct x as [s|s| |s m e]; simpl; intros H; try congruence.
  - now destruct s.
  - destruct s; rewrite Z.compare_refl, Pos.compare_cont_refl; reflexivity.
Qed.

Lemma SFltb_SFleb (x y : spec_float) : SFltb x y = true -> SFleb x y = true.
Proof.
  unfold SFltb, SFleb. destruct (SFcompare x y) as [[ | | ]|]; congruence.
Qed.

Lemma SFltb_not_nan_l (x y : spec_float) : SFltb x y = true -> x <> S754_nan.
Proof. intros H ->. discriminate H. Qed.

Lemma key_le_trans a b c : key_le a b -> key_le b c -> key_le a c.
Proof. unfold key_le. lia. Qed.

Lemma Pcompare_Eq_cases (m1 m2 : positive) :
  match Pos.compare_cont Eq m1 m2 with
  | Eq => m1 = m2
  | Lt => (m1 < m2)%positive
  | Gt => (m2 < m1)%positive
  end.
Proof.
  change (Pos.compare_cont Eq m1 m2) with (Pos.compare m1 m2).
  destruct (Pos.compare_spec m1 m2); assumption.
Qed.

Lemma SFleb_key (x y : spec_float) :
  x <> S754_nan -> y <> S754_nan ->
  (SFleb x y = true <-> key_le (key x) (key y)).
Proof.
  intros Hx Hy. unfold SFleb, key_le.
  destruct x as [sx|sx| |sx mx ex]; destruct y as [sy|sy| |sy my ey];
    try congruence; simpl;
    try (destruct sx; simpl); try (destruct sy; simpl);
    try (split; [ intros _; lia | reflexivity ]);
    try (split; [ discriminate | lia ]).
  - destruct (Z.compare_spec ex ey) as [He|He|He];
      [ pose proof (Pcompare_Eq_cases mx my) as Hm;
        destruct (Pos.compare_cont Eq mx my); simpl | simpl | simpl ];
      split; try discriminate; try reflexivity; try lia.
  - destruct (Z.compare_spec ex ey) as [He|He|He];
      [ pose proof (Pcompare_Eq_cases mx my) as Hm;
        destruct (Pos.compare_cont Eq mx my); simpl | simpl | simpl ];
      split; try discriminate; try reflexivity; try lia.
Qed.

Lemma SFleb_trans (x y z : spec_float) :
  x <> S754_nan -> y <> S754_nan -> z <> S754_nan ->
  SFleb x y = true -> SFleb y z = true -> SFleb x z = true.
Proof.
  intros Hx Hy Hz Hxy Hyz.
  apply SFleb_key; try assumption.
  apply key_le_trans with (key y); apply SFleb_key; assumption.
Qed.

Lemma ltb_leb (x y : float) : (x <? y)%float = true -> (x <=? y)%float = true.
Proof. rewrite ltb_spec, leb_spec. apply SFltb_SFleb. Qed.

Lemma ltb_not_nan (x y : float) : (x <? y)%float = true -> not_nan x.
Proof. rewrite ltb_spec. apply SFltb_not_nan_l. Qed.

Lemma leb_refl (x : float) : not_nan x -> (x <=? x)%float = true.
Proof.
  intros H. rewrite leb_spec. unfold SFleb. now rewrite SFcompare_refl.
Qed.

Lemma leb_trans (x y z : float) :
  not_nan x -> not_nan y -> not_nan z ->
  (x <=? y)%float = true -> (y <=? z)%float = true -> (x <=? z)%float = true.
Proof. rewrite !leb_spec. apply SFleb_trans. Qed.

Lemma infinity_not_nan : not_nan infinity.
Proof. unfold not_nan. vm_compute. discriminate. Qed.

End FloatOrderFacts.

(** ** The early-stopping loop *)

Module ControllerFacts.

Import FloatOrder FloatOrderFacts Controller.
Local Open Scope Z_scope.

Lemma range_cons (lo hi : Z) : lo < hi -> range lo hi = lo :: range (lo + 1) hi.
Proof.
  intros H. unfold range.
  replace (Z.to_nat (hi - lo)) with (S (Z.to_nat (hi - (lo + 1)))) by lia.
  cbn [seq map]. f_equal; [ lia | ].
  rewrite <- seq_shift, map_map. apply map_ext. intros i. lia.
Qed.

Lemma save_if_due_bad a e v st : bad_epochs (save_if_due a e v st) = bad_epochs st.
Proof. unfold save_if_due. now destruct (_ =? _). Qed.

Lemma save_if_due_best a e v st : best_validate (save_if_due a e v st) = best_validate st.
Proof. unfold save_if_due. now destruct (_ =? _). Qed.

Lemma epoch_body_best validate a e st :
  best_validate (epoch_body validate a e st) =
  if (validate e <? best_validate st)%float then validate e else best_validate st.
Proof.
  unfold epoch_body, observe. rewrite save_if_due_best.
  now destruct (_ <? _)%float.
Qed.

Lemma epoch_body_bad validate a e st :
  bad_epochs (epoch_body validate a e st) =
  if (validate e <? best_validate st)%float then 0 else bad_epochs st + 1.
Proof.
  unfold epoch_body, observe. rewrite save_if_due_best, save_if_due_bad.
  now destruct (_ <? _)%float.
Qed.

Lemma epoch_loop_cons validate a e rest st :
  save_interval a <> 0 ->
  epoch_loop validate a (e :: rest) st =
  if patience a <=? bad_epochs (epoch_body validate a e st)
  then ([(e, epoch_body validate a e st)], EARLY_STOPPED)
  else let '(tr, out) := epoch_loop validate a rest (epoch_body validate a e st) in
       ((e, epoch_body validate a e st) :: tr, out).
Proof.
  intros H. cbn [epoch_loop]. destruct (Z.eqb_spec (save_interval a) 0); [ contradiction | reflexivity ].
Qed.

Lemma last_cons_default {A} (x d : A) (l : list A) : List.last (x :: l) d = List.last l x.
Proof.
  revert x d. induction l as [|y l IH]; intros x d; [ reflexivity | ].
  change (List.last (x :: y :: l) d) with (List.last (y :: l) d).
  now rewrite (IH y d), (IH y x).
Qed.

(** Every completed epoch applies the loop body to the state left by the one
    before it, and an epoch that reaches the patience is the last one. *)
Lemma epoch_loop_steps validate a epochs :
  forall st tr out, epoch_loop validate a epochs st = (tr, out) ->
  forall pre e s post, tr = pre ++ (e, s) :: post ->
    s = epoch_body validate a e (state_before st pre) /\
    (patience a <= bad_epochs s -> post = [] /\ out = EARLY_STOPPED) /\
    (bad_epochs s < patience a -> post = [] -> out = MAX_EPOCH_REACHED \/ out = RAISED).
Proof.
  induction epochs as [|e0 rest IH]; intros st tr out Hrun pre e s post Htr; cbn [epoch_loop] in Hrun.
  - inversion Hrun; subst. destruct pre; discriminate.
  - destruct (save_interval a =? 0).
    { inversion Hrun; subst. destruct pre; discriminate. }
    destruct (Z.leb_spec (patience a) (bad_epochs (epoch_body validate a e0 st))) as [Hstop|Hgo].
    + inversion Hrun; subst out. subst tr.
      destruct pre as [|p pre].
      * cbn in H0. inversion H0; subst. unfold state_before. cbn.
        repeat split; auto. intros; lia.
      * cbn in H0. inversion H0. destruct pre; discriminate.
    + destruct (epoch_loop validate a rest (epoch_body validate a e0 st)) as [tr' out'] eqn:Hrest.
      inversion Hrun; subst out'. subst tr.
      destruct pre as [|p pre].
      * cbn in H0. inversion H0; subst. unfold state_before. cbn.
        split; [ reflexivity | split ]; [ intros; lia | ].
        intros _ ->. destruct rest as [|e1 rest]; cbn [epoch_loop] in Hrest.
        -- inversion Hrest; auto.
        -- destruct (save_interval a =? 0); [ inversion Hrest; auto | ].
           destruct (patience a <=? _); [ discriminate | ].
           destruct (epoch_loop _ _ _ _); discriminate.
      * cbn in H0. inversion H0; subst p tr'.
        unfold state_before. cbn [map snd]. rewrite last_cons_default.
        apply (IH _ _ _ Hrest pre e s post eq_refl).
Qed.

(** [best_validate] never becomes NaN and never goes up. *)
Lemma epoch_body_best_le validate a e st :
  not_nan (best_validate st) ->
  not_nan (best_validate (epoch_body validate a e st)) /\
  float_ge (best_validate st) (best_validate (epoch_body validate a e st)).
Proof.
  intros Hn. rewrite epoch_body_best. unfold float_ge.
  destruct (validate e <? best_validate st)%float eqn:Hlt.
  - split; [ eapply ltb_not_nan; eauto | now apply ltb_leb ].
  - split; [ assumption | now apply leb_refl ].
Qed.

Lemma epoch_loop_best_sorted validate a epochs :
  forall st tr out, not_nan (best_validate st) ->
  epoch_loop validate a epochs st = (tr, out) ->
  Forall not_nan (best_history st tr) /\
  StronglySorted float_ge (best_history st tr).
Proof.
  unfold best_history.
  induction epochs as [|e0 rest IH]; intros st tr out Hn Hrun; cbn [epoch_loop] in Hrun.
  - inversion Hrun; subst. cbn. split; repeat constructor; assumption.
  - destruct (save_interval a =? 0).
    { inversion Hrun; subst. cbn. split; repeat constructor; assumption. }
    destruct (epoch_body_best_le validate a e0 st Hn) as [Hn' Hle].
    destruct (patience a <=? _).
    + inversion Hrun; subst. cbn. split; repeat constructor; assumption.
    + destruct (epoch_loop validate a rest (epoch_body validate a e0 st)) as [tr' out'] eqn:Hrest.
      inversion Hrun; subst. cbn [map snd].
      destruct (IH _ _ _ Hn' Hrest) as [Hall Hsorted].
      split; [ constructor; assumption | ].
      constructor; [ assumption | ].
      constructor; [ assumption | ].
      apply StronglySorted_inv in Hsorted as [_ Hhd].
      inversion Hall as [|? ? _ Hall']; subst.
      rewrite List.Forall_forall in *. intros x Hx.
      unfold float_ge in *.
      apply leb_trans with (best_validate (epoch_body validate a e0 st)); auto.
Qed.

Lemma StronglySorted_nth {A} (R : A -> A -> Prop) (l : list A) (d : A) :
  StronglySorted R l ->
  forall i j, (i < j < length l)%nat -> R (nth i l d) (nth j l d).
Proof.
  induction 1 as [|x l Hs IH Hall]; intros i j Hij; cbn [length] in Hij; [ lia | ].
  destruct j as [|j]; [ lia | ]. destruct i as [|i]; cbn [nth].
  - rewrite List.Forall_forall in Hall. apply Hall, nth_In. lia.
  - apply IH. lia.
Qed.

Lemma epoch_loop_epochs validate a epochs :
  forall st tr out, epoch_loop validate a epochs st = (tr, out) ->
  exists rest, epochs = map fst tr ++ rest.
Proof.
  induction epochs as [|e0 rest IH]; intros st tr out Hrun; cbn [epoch_loop] in Hrun.
  - inversion Hrun. now exists [].
  - destruct (save_interval a =? 0); [ inversion Hrun; now exists (e0 :: rest) | ].
    destruct (patience a <=? _); [ inversion Hrun; now exists rest | ].
    destruct (epoch_loop validate a rest _) as [tr' out'] eqn:Hrest.
    inversion Hrun; subst. destruct (IH _ _ _ Hrest) as [r Hr].
    exists r. cbn. now rewrite <- Hr.
Qed.

Lemma range_lower (lo hi e : Z) : In e (range lo hi) -> lo <= e < hi.
Proof.
  unfold range. rewrite in_map_iff. intros [i [<- Hi]].
  apply in_seq in Hi. lia.
Qed.

(** The early-stopping fields after an epoch depend on the state before it
    only through those fields: the checkpoint file is never read back. *)
Lemma epoch_loop_ignores_file validate a epochs :
  forall st1 st2,
  bad_epochs st1 = bad_epochs st2 -> best_validate st1 = best_validate st2 ->
  map early_stop_view (fst (epoch_loop validate a epochs st1)) =
  map early_stop_view (fst (epoch_loop validate a epochs st2)) /\
  snd (epoch_loop validate a epochs st1) = snd (epoch_loop validate a epochs st2).
Proof.
  induction epochs as [|e0 rest IH]; intros st1 st2 Hbad Hbest; cbn [epoch_loop].
  - split; reflexivity.
  - destruct (save_interval a =? 0); [ split; reflexivity | ].
    assert (Hbad' : bad_epochs (epoch_body validate a e0 st1) =
                    bad_epochs (epoch_body validate a e0 st2))
      by (rewrite !epoch_body_bad, Hbad, Hbest; reflexivity).
    assert (Hbest' : best_validate (epoch_body validate a e0 st1) =
                     best_validate (epoch_body validate a e0 st2))
      by (rewrite !epoch_body_best, Hbest; reflexivity).
    rewrite Hbad'. destruct (patience a <=? _).
    + cbn. unfold early_stop_view. cbn. now rewrite Hbad', Hbest'.
    + destruct (IH _ _ Hbad' Hbest') as [Htr Hout].
      destruct (epoch_loop validate a rest (epoch_body validate a e0 st1)).
      destruct (epoch_loop validate a rest (epoch_body validate a e0 st2)).
      cbn in *. split; [ | assumption ].
      f_equal; [ | assumption ].
      unfold early_stop_view. cbn. now rewrite Hbad', Hbest'.
Qed.

(** C10. Across every run of the controller, from any checkpoint file and
    for any validator results: an epoch whose perplexity is strictly below
    the current best resets [bad_epochs] to 0 and becomes the best (any other
    epoch adds one to [bad_epochs] and leaves the best alone); an epoch that
    ends with [bad_epochs >= patience] is the last one and the run ends by
    early stop; and [best_validate], from its initial value on, never
    increases from an epoch to any later one. *)
Theorem early_stopping_invariants (validate : Z -> float) (a : args)
    (file : option checkpoint) (tr : list (Z * controller)) (out : outcome) :
  main validate a file = (tr, out) ->
  (forall pre e s post, tr = pre ++ (e, s) :: post ->
     let prev := state_before (snd (startup file)) pre in
     ((validate e <? best_validate prev)%float = true ->
        bad_epochs s = 0 /\ best_validate s = validate e) /\
     ((validate e <? best_validate prev)%float = false ->
        bad_epochs s = bad_epochs prev + 1 /\ best_validate s = best_validate prev) /\
     (patience a <= bad_epochs s -> post = [] /\ out = EARLY_STOPPED)) /\
  (forall i j, (i <= j < length (best_history (snd (startup file)) tr))%nat ->
     float_ge (nth i (best_history (snd (startup file)) tr) nan)
              (nth j (best_history (snd (startup file)) tr) nan)).
Proof.
  unfold main. cbn [startup fst snd]. intros Hrun. split.
  - intros pre e s post Htr.
    destruct (epoch_loop_steps _ _ _ _ _ _ Hrun pre e s post Htr) as [Hs [Hstop _]].
    split; [ | split; [ | exact Hstop ] ];
      intros Hlt; rewrite Hs, epoch_body_bad, epoch_body_best, Hlt; split; reflexivity.
  - intros i j Hij.
    destruct (epoch_loop_best_sorted validate a _ (Controller 0 infinity file) tr out
                infinity_not_nan Hrun) as [Hall Hsorted].
    destruct (Nat.eq_dec i j) as [->|Hne].
    + unfold float_ge. apply leb_refl.
      rewrite List.Forall_forall in Hall. apply Hall, nth_In. lia.
    + apply StronglySorted_nth; [ assumption | lia ].
Qed.

Lemma early_stopping_invariants_witness :
  float_ge
    (nth 1 (best_history (snd (startup None))
              (fst (main (validate_of scenario) (Args 10 3 1) None))) nan)
    (nth 4 (best_history (snd (startup None))
              (fst (main (validate_of scenario) (Args 10 3 1) None))) nan).
Proof.
  refine (proj2 (early_stopping_invariants (validate_of scenario) (Args 10 3 1) None
                   (fst (main (validate_of scenario) (Args 10 3 1) None))
                   (snd (main (validate_of scenario) (Args 10 3 1) None)) _) 1%nat 4%nat _).
  - apply surjective_pairing.
  - vm_compute. lia.
Defined.

(** C5 as stated, refuted: on the perplexities 5.0, 4.0, 4.2, 4.3, 4.4, 4.5
    with patience 3 the loop completes epochs 0 to 4 and breaks; the number
    of completed epochs is five, not six. *)
Lemma scenario_stops_before_sixth_epoch :
  map fst (fst (main (validate_of scenario) (Args 10000 3 1) None)) = [0; 1; 2; 3; 4] /\
  snd (main (validate_of scenario) (Args 10000 3 1) None) = EARLY_STOPPED /\
  (length (fst (main (validate_of scenario) (Args 10000 3 1) None)) =? 6)%nat = false.
Proof. vm_compute. repeat split. Qed.

(** C5, amended. If the validator returns 5.0, 4.0, 4.2, 4.3, 4.4 in the
    first five epochs (whatever it would return afterwards, 4.5 included),
    patience is 3, at least five epochs are allowed, the save interval is
    not zero and there is no checkpoint, then the controller halts by early
    stop exactly after the fifth epoch (epoch number 4), with
    [best_validate = 4.0] and [bad_epochs = 3]. *)
Theorem scenario_stops_after_fifth_epoch (validate : Z -> float) (a : args) :
  (forall e, 0 <= e < 5 -> validate e = validate_of scenario e) ->
  patience a = 3 -> 5 <= max_epoch a -> save_interval a <> 0 ->
  exists tr st,
    main validate a None = (tr, EARLY_STOPPED) /\
    map fst tr = [0; 1; 2; 3; 4] /\
    List.last tr (0, Controller 0 infinity None) = (4, st) /\
    best_validate st = 4.0%float /\ bad_epochs st = 3.
Proof.
  intros Hv Hp Hmax Hsave. unfold main. cbn [startup restored_last_epoch load_checkpoint].
  assert (H0 := Hv 0 ltac:(lia)). assert (H1 := Hv 1 ltac:(lia)).
  assert (H2 := Hv 2 ltac:(lia)). assert (H3 := Hv 3 ltac:(lia)).
  assert (H4 := Hv 4 ltac:(lia)).
  vm_compute in H0, H1, H2, H3, H4.
  rewrite (range_cons (-1 + 1)) by lia. rewrite (range_cons (-1 + 1 + 1)) by lia.
  rewrite (range_cons (-1 + 1 + 1 + 1)) by lia.
  rewrite (range_cons (-1 + 1 + 1 + 1 + 1)) by lia.
  rewrite (range_cons (-1 + 1 + 1 + 1 + 1 + 1)) by lia.
  change (-1 + 1) with 0. change (0 + 1) with 1. change (1 + 1) with 2.
  change (2 + 1) with 3. change (3 + 1) with 4. change (4 + 1) with 5.
  set (s0 := Controller 0 infinity None).
  set (s1 := epoch_body validate a 0 s0).
  set (s2 := epoch_body validate a 1 s1).
  set (s3 := epoch_body validate a 2 s2).
  set (s4 := epoch_body validate a 3 s3).
  set (s5 := epoch_body validate a 4 s4).
  assert (E1 : best_validate s1 = 5.0%float /\ bad_epochs s1 = 0).
  { unfold s1. rewrite epoch_body_best, epoch_body_bad, H0. split; reflexivity. }
  assert (E2 : best_validate s2 = 4.0%float /\ bad_epochs s2 = 0).
  { unfold s2. rewrite epoch_body_best, epoch_body_bad, H1, (proj1 E1). split; reflexivity. }
  assert (E3 : best_validate s3 = 4.0%float /\ bad_epochs s3 = 1).
  { unfold s3. rewrite epoch_body_best, epoch_body_bad, H2, (proj1 E2), (proj2 E2). split; reflexivity. }
  assert (E4 : best_validate s4 = 4.0%float /\ bad_epochs s4 = 2).
  { unfold s4. rewrite epoch_body_best, epoch_body_bad, H3, (proj1 E3), (proj2 E3). split; reflexivity. }
  assert (E5 : best_validate s5 = 4.0%float /\ bad_epochs s5 = 3).
  { unfold s5. rewrite epoch_body_best, epoch_body_bad, H4, (proj1 E4), (proj2 E4). split; reflexivity. }
  exists [(0, s1); (1, s2); (2, s3); (3, s4); (4, s5)], s5.
  split; [ | repeat split; try reflexivity; apply E5 ].
  rewrite epoch_loop_cons by assumption. fold s1. rewrite (proj2 E1), Hp. cbn [Z.leb Z.compare].
  rewrite epoch_loop_cons by assumption. fold s2. rewrite (proj2 E2), Hp. cbn [Z.leb Z.compare].
  rewrite epoch_loop_cons by assumption. fold s3. rewrite (proj2 E3), Hp. cbn [Z.leb Z.compare Pos.compare Pos.compare_cont].
  rewrite epoch_loop_cons by assumption. fold s4. rewrite (proj2 E4), Hp. cbn [Z.leb Z.compare Pos.compare Pos.compare_cont].
  rewrite epoch_loop_cons by assumption. fold s5. rewrite (proj2 E5), Hp. cbn [Z.leb Z.compare Pos.compare Pos.compare_cont].
  reflexivity.
Qed.

Lemma scenario_stops_after_fifth_epoch_witness :
  exists tr st,
    main (validate_of scenario) (Args 10000 3 1) None = (tr, EARLY_STOPPED) /\
    map fst tr = [0; 1; 2; 3; 4] /\
    List.last tr (0, Controller 0 infinity None) = (4, st) /\
    best_validate st = 4.0%float /\ bad_epochs st = 3.
Proof.
  apply (scenario_stops_after_fifth_epoch (validate_of scenario) (Args 10000 3 1)).
  - reflexivity.
  - reflexivity.
  - cbn. lia.
  - cbn. lia.
Defined.

(** C2 as stated, refuted: a checkpoint saved at epoch 3 with best metric
    4.0 restores [last_epoch = 3], but [best_validate] starts at infinity,
    not at 4.0; the first perplexity after the restart, 4.5, is then taken
    as a new best ([bad_epochs] stays 0 and the best becomes 4.5), where a
    controller started from the saved metric counts a bad epoch. *)
Lemma restart_forgets_saved_metric :
  startup (save_checkpoint 3 4.0%float None) =
    (3, Controller 0 infinity (Some (Checkpoint 3 4.0%float))) /\
  (best_validate (snd (startup (save_checkpoint 3 4.0%float None))) =? 4.0)%float = false /\
  early_stop_view (4, observe 4.5%float (snd (startup (save_checkpoint 3 4.0%float None)))) =
    (4, (0, 4.5%float)) /\
  early_stop_view (4, observe 4.5%float (snd (startup_spec (save_checkpoint 3 4.0%float None)))) =
    (4, (1, 4.0%float)).
Proof. vm_compute. repeat split. Qed.

(** C2, amended. After saving a checkpoint at epoch [e] with metric [m] and
    restoring it at startup, the controller resumes with [last_epoch = e]:
    every epoch it then runs has a number above [e].  [bad_epochs] restarts at
    0 and [best_validate] at infinity, and the saved metric plays no part in
    the early-stopping comparisons that follow: the epochs run, their
    [bad_epochs] and [best_validate] and the way the run ends are the same
    for any other saved metric [m']. *)
Theorem restart_resumes_epoch_only (validate : Z -> float) (a : args)
    (e : Z) (m m' : float) (file : option checkpoint) :
  startup (save_checkpoint e m file) =
    (e, Controller 0 infinity (Some (Checkpoint e m))) /\
  Forall (fun p => e < fst p) (fst (main validate a (save_checkpoint e m file))) /\
  map early_stop_view (fst (main validate a (save_checkpoint e m file))) =
    map early_stop_view (fst (main validate a (save_checkpoint e m' file))) /\
  snd (main validate a (save_checkpoint e m file)) =
    snd (main validate a (save_checkpoint e m' file)).
Proof.
  split; [ reflexivity | ]. unfold main.
  unfold startup, save_checkpoint, load_checkpoint, restored_last_epoch.
  cbn [ck_last_epoch].
  split.
  - destruct (epoch_loop validate a (range (e + 1) (max_epoch a))
                (Controller 0 infinity (Some (Checkpoint e m)))) as [tr out] eqn:Hrun.
    destruct (epoch_loop_epochs _ _ _ _ _ _ Hrun) as [rest Hrest].
    cbn [fst]. apply List.Forall_forall. intros p Hp.
    assert (Hin : In (fst p) (range (e + 1) (max_epoch a))).
    { rewrite Hrest. apply in_or_app. left. now apply in_map. }
    apply range_lower in Hin. lia.
  - now apply epoch_loop_ignores_file.
Qed.

End ControllerFacts.

(** ** The alignment regulariser on rational tensors *)

Module TensorFacts.

Import Tensor.
Local Open Scope Q_scope.

Ltac q_ops :=
  cbn [sadd ssub smul sdiv sabs of_int szero detach Q_Scalar] in *.

Lemma sum_upto_ext (n : nat) (f g : nat -> Q) :
  (forall i, (i < n)%nat -> f i == g i) -> sum_upto n f == sum_upto n g.
Proof.
  induction n as [|n IH]; intros H; cbn [sum_upto]; q_ops; [ reflexivity | ].
  rewrite IH by (intros i Hi; apply H; lia). rewrite (H n) by lia. reflexivity.
Qed.

Lemma sum_upto_scale (n : nat) (c : Q) (f : nat -> Q) :
  sum_upto n (fun i => c * f i) == c * sum_upto n f.
Proof.
  induction n as [|n IH]; cbn [sum_upto]; q_ops; [ ring | ].
  rewrite IH. ring.
Qed.

Lemma sum_upto_nonneg (n : nat) (f : nat -> Q) :
  (forall i, 0 <= f i) -> 0 <= sum_upto n f.
Proof.
  intros H. induction n as [|n IH]; cbn [sum_upto]; q_ops; [ apply Qle_refl | ].
  replace 0 with (0 + 0) by reflexivity. apply Qplus_le_compat; auto.
Qed.

Lemma Qdiv_nonneg (x y : Q) : 0 <= x -> 0 <= y -> 0 <= x / y.
Proof.
  intros Hx Hy. unfold Qdiv. apply Qmult_le_0_compat; [ assumption | ].
  now apply Qinv_le_0_compat.
Qed.

Lemma Qdiv_scale (c x y : Q) : ~ c == 0 -> (c * x) / (c * y) == x / y.
Proof.
  intros Hc. unfold Qdiv. rewrite Qinv_mult_distr.
  transitivity (x * / y * (c * / c)); [ ring | ].
  rewrite Qmult_inv_r by assumption. ring.
Qed.

Lemma ratio_scale (c a b n m : Q) :
  ~ c == 0 -> (c * a / n) / ((c * b - c * a) / m) == (a / n) / ((b - a) / m).
Proof.
  intros Hc.
  assert (E1 : c * a / n == c * (a / n)) by (unfold Qdiv; ring).
  assert (E2 : (c * b - c * a) / m == c * ((b - a) / m)) by (unfold Qdiv; ring).
  rewrite E1, E2. now apply Qdiv_scale.
Qed.

(** Norms are sums of absolute values: non-negative, and scaled by [|c|]
    with the entries. *)
Lemma norm1_mat_nonneg (t : tensor2 Q) : 0 <= norm1_mat t.
Proof.
  unfold norm1_mat. apply sum_upto_nonneg. intros b.
  apply sum_upto_nonneg. intros i. q_ops. apply Qabs_nonneg.
Qed.

Lemma numerator_nonneg (diff : tensor3 Q) : 0 <= numerator diff.
Proof.
  unfold numerator. q_ops. apply Qdiv_nonneg; [ apply norm1_mat_nonneg | ].
  unfold len_mat. change 0 with (inject_Z 0). rewrite <- Zle_Qle. lia.
Qed.

Lemma diag_ratio_nonneg (diff : tensor3 Q) :
  0 < denominator diff -> 0 <= diag_ratio diff.
Proof.
  intros H. unfold diag_ratio. q_ops.
  apply Qdiv_nonneg; [ apply numerator_nonneg | now apply Qlt_le_weak ].
Qed.

Lemma norm1_diag_scaled (c : Q) (t t' : tensor3 Q) :
  scaled c t t' ->
  norm1_mat (diagonal12 t') == Qabs c * norm1_mat (diagonal12 t).
Proof.
  intros (H0 & H1 & H2 & H). unfold norm1_mat, diagonal12. cbn [rows2 cols2 get2].
  rewrite H0, H1, H2. rewrite <- sum_upto_scale. apply sum_upto_ext. intros b _.
  rewrite <- sum_upto_scale. apply sum_upto_ext. intros i _. q_ops.
  rewrite H. apply Qabs_Qmult.
Qed.

Lemma norm1_flat_scaled (c : Q) (t t' : tensor3 Q) :
  scaled c t t' ->
  norm1_flat (view_flat t') == Qabs c * norm1_flat (view_flat t).
Proof.
  intros (H0 & H1 & H2 & H). unfold norm1_flat, view_flat. cbn [len1 get1].
  rewrite H0, H1, H2. rewrite <- sum_upto_scale. apply sum_upto_ext. intros k _. q_ops.
  rewrite H. apply Qabs_Qmult.
Qed.

Lemma diag_ratio_scaled (c : Q) (t t' : tensor3 Q) :
  0 < c -> scaled c t t' -> diag_ratio t' == diag_ratio t.
Proof.
  intros Hc Hs. unfold diag_ratio, numerator, denominator. cbn zeta. q_ops.
  rewrite (norm1_diag_scaled c t t' Hs), (norm1_flat_scaled c t t' Hs).
  destruct Hs as (H0 & H1 & H2 & _).
  unfold len_mat, len_flat, diagonal12, view_flat. cbn [rows2 len1].
  rewrite H0, H1, H2. rewrite (Qabs_pos c) by now apply Qlt_le_weak.
  apply ratio_scale.
  intros E. rewrite E in Hc. now apply Qlt_irrefl in Hc.
Qed.

Lemma scale3_scaled (c : Q) (t : tensor3 Q) : scaled c t (scale3 c t).
Proof. unfold scaled, scale3. cbn. repeat split; reflexivity. Qed.

Lemma bmm_scaled_l (c : Q) (x x' y diff : tensor3 Q) :
  scaled c x x' -> bmm x y = Some diff ->
  exists diff', bmm x' y = Some diff' /\ scaled c diff diff'.
Proof.
  intros (H0 & H1 & H2 & H) Hb. unfold bmm in *. rewrite H0, H2.
  destruct ((size0 x =? size0 y)%nat && (size2 x =? size1 y)%nat); [ | discriminate ].
  inversion Hb; subst diff. eexists. split; [ reflexivity | ].
  unfold scaled. cbn [size0 size1 size2 get3]. repeat split; try assumption.
  intros b i j. rewrite <- sum_upto_scale. apply sum_upto_ext. intros l _. q_ops.
  rewrite H. ring.
Qed.

(** [get_diff] is the ratio of each of its two product matrices, detached. *)
Lemma get_diff_matrices {A : Type} {SA : Scalar A} (att src_out att_rev src_out_rev : tensor3 A) :
  get_diff att src_out att_rev src_out_rev =
  match diff_matrices att src_out att_rev src_out_rev with
  | Some (diff, diff_rev) => Some (detach (diag_ratio diff), detach (diag_ratio diff_rev))
  | None => None
  end.
Proof.
  unfold get_diff, diff_matrices, calculate_diff.
  destruct (bmm att (transpose01 src_out)) as [acontext|]; [ | reflexivity ].
  destruct (bmm att_rev (transpose01 src_out_rev)) as [acontext_rev|]; [ | reflexivity ].
  cbn [mbind option_bind].
  destruct (bmm acontext (transpose12 (transpose01 src_out_rev))); [ | reflexivity ].
  cbn [mbind option_bind].
  destruct (bmm acontext_rev (transpose12 (transpose01 src_out))); reflexivity.
Qed.

Lemma diff_matrices_scaled (c : Q) (att src_out att_rev src_out_rev diff diff_rev : tensor3 Q) :
  diff_matrices att src_out att_rev src_out_rev = Some (diff, diff_rev) ->
  exists diff' diff_rev',
    diff_matrices (scale3 c att) src_out (scale3 c att_rev) src_out_rev
      = Some (diff', diff_rev') /\
    scaled c diff diff' /\ scaled c diff_rev diff_rev'.
Proof.
  unfold diff_matrices. intros Hm.
  destruct (bmm att (transpose01 src_out)) as [acontext|] eqn:H1; [ | discriminate ].
  destruct (bmm att_rev (transpose01 src_out_rev)) as [acontext_rev|] eqn:H2; [ | discriminate ].
  cbn [mbind option_bind] in Hm.
  destruct (bmm acontext _) as [m1|] eqn:H3; [ | discriminate ].
  cbn [mbind option_bind] in Hm.
  destruct (bmm acontext_rev _) as [m2|] eqn:H4; [ | discriminate ].
  inversion Hm; subst m1 m2.
  destruct (bmm_scaled_l c _ _ _ _ (scale3_scaled c att) H1) as [a' [Ha' Sa]].
  destruct (bmm_scaled_l c _ _ _ _ (scale3_scaled c att_rev) H2) as [ar' [Har' Sar]].
  destruct (bmm_scaled_l c _ _ _ _ Sa H3) as [d' [Hd' Sd]].
  destruct (bmm_scaled_l c _ _ _ _ Sar H4) as [dr' [Hdr' Sdr]].
  exists d', dr'. rewrite Ha', Har'. cbn [mbind option_bind].
  rewrite Hd'. cbn [mbind option_bind]. rewrite Hdr'. auto.
Qed.

(** In exact arithmetic, where no product or sum is rounded: for every
    input whose two product matrices have a positive off-diagonal
    denominator, [get_diff] returns two non-negative scalars, and
    multiplying both [att] and [att_rev] by the same positive constant [c]
    leaves both unchanged.  (The arithmetic of the code is treated in
    [Float32Facts].) *)
Lemma scale_invariant_in_exact_arithmetic
    (att src_out att_rev src_out_rev diff diff_rev : tensor3 Q) (c : Q) :
  diff_matrices att src_out att_rev src_out_rev = Some (diff, diff_rev) ->
  0 < denominator diff -> 0 < denominator diff_rev -> 0 < c ->
  exists d d_rev d' d_rev',
    get_diff att src_out att_rev src_out_rev = Some (d, d_rev) /\
    0 <= d /\ 0 <= d_rev /\
    get_diff (scale3 c att) src_out (scale3 c att_rev) src_out_rev = Some (d', d_rev') /\
    d' == d /\ d_rev' == d_rev.
Proof.
  intros Hm Hd Hdr Hc.
  destruct (diff_matrices_scaled c _ _ _ _ _ _ Hm) as (diff' & diff_rev' & Hm' & S & Sr).
  exists (diag_ratio diff), (diag_ratio diff_rev), (diag_ratio diff'), (diag_ratio diff_rev').
  rewrite !get_diff_matrices, Hm, Hm'. q_ops.
  repeat split; try reflexivity.
  - now apply diag_ratio_nonneg.
  - now apply diag_ratio_nonneg.
  - now apply diag_ratio_scaled with c.
  - now apply diag_ratio_scaled with c.
Qed.

(** Summing a flattened tensor is summing it dimension by dimension. *)
Lemma sum_upto_app (a b : nat) (g : nat -> Q) :
  sum_upto (a + b) g == sum_upto a g + sum_upto b (fun k => g (a + k)%nat).
Proof.
  induction b as [|b IH].
  - rewrite Nat.add_0_r. cbn [sum_upto]. q_ops. ring.
  - rewrite Nat.add_succ_r. cbn [sum_upto]. q_ops. rewrite IH. ring.
Qed.

Lemma sum_upto_rows (n m : nat) (f : nat -> nat -> Q) :
  sum_upto (n * m) (fun k => f (k / m)%nat (k mod m)%nat) ==
  sum_upto n (fun i => sum_upto m (fun j => f i j)).
Proof.
  induction n as [|n IH]; [ reflexivity | ].
  replace (S n * m)%nat with (n * m + m)%nat by lia.
  rewrite sum_upto_app, IH. cbn [sum_upto]. q_ops.
  apply Qplus_comp; [ reflexivity | ].
  apply sum_upto_ext. intros j Hj.
  replace (n * m + j)%nat with (j + n * m)%nat by lia.
  rewrite Nat.div_add, Nat.Div0.mod_add by lia.
  rewrite Nat.div_small, Nat.mod_small by lia. reflexivity.
Qed.

Lemma norm1_flat_all (t : tensor3 Q) : norm1_flat (view_flat t) == norm1_all t.
Proof.
  unfold norm1_flat, view_flat, norm1_all. cbn [len1 get1].
  rewrite <- (sum_upto_rows (size0 t) (size1 t)
                (fun b i => sum_upto (size2 t) (fun j => sabs (get3 t b i j)))).
  rewrite <- (sum_upto_rows (size0 t * size1 t) (size2 t)
                (fun r j => sabs (get3 t (r / size1 t) (r mod size1 t) j))).
  apply sum_upto_ext. intros k _.
  rewrite Nat.Div0.div_div, (Nat.mul_comm (size2 t) (size1 t)). reflexivity.
Qed.

(** What [calculate_diff] computes on a product matrix of shape [B, n, m]:
    both means divide by counts built from the batch size [B], whatever the
    length [min n m] of the diagonal. *)
Lemma diag_ratio_formula (diff : tensor3 Q) :
  diag_ratio diff ==
  (norm1_mat (diagonal12 diff) / inject_Z (Z.of_nat (size0 diff)))
  / ((norm1_all diff - norm1_mat (diagonal12 diff))
     / inject_Z (Z.of_nat (size0 diff * size1 diff * size2 diff)
                 - Z.of_nat (size0 diff))).
Proof.
  unfold diag_ratio, numerator, denominator. cbn zeta. q_ops.
  rewrite norm1_flat_all. reflexivity.
Qed.

(** It is the spec's ratio when each diagonal has one element. *)
Lemma diag_ratio_spec_single (diff : tensor3 Q) :
  Nat.min (size1 diff) (size2 diff) = 1%nat -> diag_ratio diff == spec_ratio diff.
Proof.
  intros H. rewrite diag_ratio_formula. unfold spec_ratio, count_diag, count_all.
  cbn zeta. q_ops. rewrite H, Nat.mul_1_r. reflexivity.
Qed.

(** C1 on the code: with one batch entry and the 2 x 2 product matrix of all
    ones (diagonal norm 2, total norm 4) [calculate_diff] returns
    (2 / 1) / ((4 - 2) / (4 - 1)) = 3, while the ratio of the two means, each
    over the number of elements it sums, is (2 / 2) / ((4 - 2) / (4 - 2)) = 1. *)
Theorem calculate_diff_counts_batches :
  Qred <$> calculate_diff (ones 1 2 1) (ones 1 2 1) = Some 3 /\
  (fun diff => Qred (spec_ratio diff)) <$> bmm (ones 1 2 1) (transpose12 (ones 1 2 1))
    = Some 1 /\
  (fun diff => (len_mat (diagonal12 diff), count_diag diff))
    <$> bmm (ones 1 2 1) (transpose12 (ones 1 2 1)) = Some (1%Z, 2%Z).
Proof. vm_compute. repeat split. Qed.

End TensorFacts.

(** ** The reverse-direction inputs *)

Module StepFacts.

Import Tensor TensorFacts Step.
Local Open Scope Z_scope.

Lemma wrap64_small (z : Z) : - 2 ^ 63 <= z < 2 ^ 63 -> wrap64 z = z.
Proof. intros H. unfold wrap64. rewrite Z.mod_small; lia. Qed.

Lemma rotate_forward_snoc (t : list Z) (x : Z) : rotate_forward (t ++ [x]) = x :: t.
Proof.
  unfold rotate_forward. rewrite length_app. cbn [length].
  replace (length t + 1 - 1)%nat with (length t) by lia.
  now rewrite drop_app_length, take_app_length.
Qed.

Lemma rotate_row0_snoc (t : list Z) (x : Z) (rest : list (list Z)) :
  rotate_row0 ((t ++ [x]) :: rest) = Some ((x :: t) :: rest).
Proof.
  unfold rotate_row0. rewrite length_app. cbn [length].
  replace (length t + 1 - 1)%nat with (length t) by lia.
  rewrite list_lookup_middle by reflexivity. cbn.
  rewrite take_app_length. now destruct t.
Qed.

Lemma rotate_row0_forward (row0 : list Z) (rest : list (list Z)) :
  row0 <> [] -> rotate_row0 (row0 :: rest) = Some (rotate_forward row0 :: rest).
Proof.
  intros H. destruct (exists_last H) as [t [x ->]].
  now rewrite rotate_row0_snoc, rotate_forward_snoc.
Qed.

Lemma adjust_lengths_exact (sample : batch) :
  well_formed sample ->
  adjust_lengths sample =
  map (fun l => l + (Z.of_nat (size1 (tgt_inputs sample))
                     - Z.of_nat (size1 (src_tokens sample))))
      (src_lengths sample).
Proof.
  intros (_ & _ & Hlen & HS & HT). unfold adjust_lengths.
  apply map_ext_in. intros l Hl. rewrite List.Forall_forall in Hlen.
  specialize (Hlen l Hl). apply wrap64_small. lia.
Qed.

(** C6. For every well-formed batch with [src_tokens] of shape [B, S]
    (row 0 being [row0]), the shift adapter succeeds; it returns a copy of
    [src_tokens] whose row 0 has the last token of [row0] at position 0 and
    token [i] of [row0] at position [i + 1], the other rows being copied as
    they are; the rotated row is a permutation of [row0]; and the adjusted
    lengths are [src_lengths + (tgt_input_len - S)], entry by entry. *)
Theorem shift_adapter_rotates_row0 (sample : batch) (row0 : list Z)
    (rest : list (list Z)) :
  well_formed sample -> src_tokens sample = row0 :: rest ->
  exists rot,
    shift_adapter sample =
      Some (rot :: rest,
            map (fun l => l + (Z.of_nat (size1 (tgt_inputs sample))
                               - Z.of_nat (length row0)))
                (src_lengths sample)) /\
    length rot = length row0 /\
    rot !! 0%nat = row0 !! (length row0 - 1)%nat /\
    (forall i, (i < length row0 - 1)%nat -> rot !! (S i) = row0 !! i) /\
    Permutation rot row0.
Proof.
  intros Hwf Hsrc. pose proof (adjust_lengths_exact sample Hwf) as Hadj.
  destruct Hwf as (_ & HS & _). rewrite Hsrc in HS, Hadj.
  unfold size1 in HS, Hadj. cbn [hd] in HS, Hadj.
  assert (Hne : row0 <> []) by (destruct row0; [ cbn in HS; lia | discriminate ]).
  destruct (exists_last Hne) as [t [x ->]].
  exists (x :: t). unfold shift_adapter. rewrite Hsrc, rotate_row0_snoc. cbn [mbind option_bind].
  rewrite Hadj. split; [ reflexivity | ].
  rewrite length_app. cbn [length].
  replace (length t + 1 - 1)%nat with (length t) by lia.
  split; [ lia | ]. split; [ | split ].
  - cbn. now rewrite list_lookup_middle.
  - intros i Hi. cbn. now rewrite lookup_app_l.
  - apply Permutation_cons_append.
Qed.

Lemma shift_adapter_rotates_row0_witness :
  exists rot,
    shift_adapter sample2 =
      Some (rot :: [[13; 14]],
            map (fun l => l + (Z.of_nat (size1 (tgt_inputs sample2))
                               - Z.of_nat (length [11; 12])))
                (src_lengths sample2)) /\
    length rot = length [11; 12] /\
    rot !! 0%nat = [11; 12] !! (length [11; 12] - 1)%nat /\
    (forall i, (i < length [11; 12] - 1)%nat -> rot !! (S i) = [11; 12] !! i) /\
    Permutation rot [11; 12].
Proof.
  apply (shift_adapter_rotates_row0 sample2 [11; 12] [[13; 14]]).
  - unfold well_formed. cbn. repeat split; try lia; try discriminate.
    repeat constructor; lia.
  - reflexivity.
Defined.

(** C7 as stated, refuted: on the row 1, 2, 3 the derived inputs hold
    3, 1, 2, while the backward rotation of the spec's data model is
    2, 3, 1. *)
Lemma rotation_is_not_backward :
  rotate_row0 [[1; 2; 3]] = Some [[3; 1; 2]] /\
  rotate_backward [1; 2; 3] = [2; 3; 1] /\
  bool_decide ([3; 1; 2] = rotate_backward [1; 2; 3]) = false.
Proof. vm_compute. repeat split. Qed.

(** C7, amended. For every batch whose row 0 is not empty, the derived
    [src_inputs] is [src_tokens] with row 0 rotated forward by one position:
    the last element moves to position 0 and the element at position [i]
    moves to position [i + 1]; undoing it takes the backward rotation.  Rows
    other than row 0 are not rotated. *)
Theorem rotation_is_forward_on_row0 (row0 : list Z) (rest : list (list Z)) :
  row0 <> [] ->
  rotate_row0 (row0 :: rest) = Some (rotate_forward row0 :: rest) /\
  rotate_backward (rotate_forward row0) = row0 /\
  (forall i, (i < length row0)%nat ->
     rotate_forward row0 !! ((i + 1) mod length row0)%nat = row0 !! i).
Proof.
  intros Hne. split; [ now apply rotate_row0_forward | ].
  destruct (exists_last Hne) as [t [x ->]]. rewrite rotate_forward_snoc.
  split; [ reflexivity | ].
  intros i Hi. rewrite length_app in *. cbn [length] in *.
  destruct (Nat.eq_dec i (length t)) as [->|Hne'].
  - rewrite Nat.Div0.mod_same. cbn. now rewrite list_lookup_middle.
  - rewrite Nat.mod_small by lia. replace (i + 1)%nat with (S i) by lia.
    cbn. rewrite lookup_app_l by lia. reflexivity.
Qed.

Lemma rotation_is_forward_on_row0_witness :
  rotate_row0 ([1; 2; 3] :: [[4; 5; 6]]) = Some (rotate_forward [1; 2; 3] :: [[4; 5; 6]]) /\
  rotate_backward (rotate_forward [1; 2; 3]) = [1; 2; 3] /\
  (forall i, (i < length [1; 2; 3])%nat ->
     rotate_forward [1; 2; 3] !! ((i + 1) mod length [1; 2; 3])%nat = [1; 2; 3] !! i).
Proof.
  apply (rotation_is_forward_on_row0 [1; 2; 3] [[4; 5; 6]]). discriminate.
Defined.

(** ** Gradients of the training loss *)

(** What [get_diff] returns has been detached: it has no derivative. *)
Lemma get_diff_detached {P : Type} (att src_out att_rev src_out_rev : tensor3 (tracked P))
    (d d_rev : tracked P) :
  get_diff att src_out att_rev src_out_rev = Some (d, d_rev) ->
  forall p, grad d p = 0%Q /\ grad d_rev p = 0%Q.
Proof.
  rewrite get_diff_matrices. intros H p.
  destruct (diff_matrices _ _ _ _) as [[diff diff_rev]|]; [ | discriminate H ].
  inversion H; subst. split; reflexivity.
Qed.

(** C8. In the training loss [d] and [d_rev] are constants for autograd:
    whatever the models and the criterion compute and however their results
    depend on the parameters, the derivative of the combined loss with
    respect to every parameter equals the derivative of the loss with the
    [d] and [d_rev] terms removed. *)
Theorem regulariser_terms_carry_no_gradient (P logits : Type)
    (model model_rev : list (list Z) -> list Z -> list (list Z)
                       -> (logits * tensor3 (tracked P)) * tensor3 (tracked P))
    (criterion : logits -> list Z -> tracked P) (sample : batch) (loss : tracked P) :
  train_batch_loss logits model model_rev criterion sample = Some loss ->
  exists loss0,
    cross_entropy_loss logits model model_rev criterion sample = Some loss0 /\
    forall p, (grad loss p == grad loss0 p)%Q.
Proof.
  unfold train_batch_loss, cross_entropy_loss.
  destruct (model _ _ _) as [[output att] src_out].
  destruct (shift_adapter sample) as [[src_inputs tgt_lengths]|]; [ | discriminate ].
  cbn [mbind option_bind].
  destruct (model_rev _ _ _) as [[output_rev att_rev] src_out_rev].
  destruct (get_diff att src_out att_rev src_out_rev) as [[d d_rev]|] eqn:Hd; [ | discriminate ].
  cbn [mbind option_bind]. intros H. inversion H; subst loss.
  eexists. split; [ reflexivity | ]. intros p.
  destruct (get_diff_detached _ _ _ _ _ _ Hd p) as [Hg Hgr].
  cbn [sadd sdiv of_int tracked_Scalar grad value]. rewrite Hg, Hgr. ring.
Qed.

Lemma regulariser_terms_carry_no_gradient_witness :
  exists loss loss0,
    train_batch_loss unit model_tracked model_tracked criterion_tracked sample2 = Some loss /\
    cross_entropy_loss unit model_tracked model_tracked criterion_tracked sample2 = Some loss0 /\
    forall p, (grad loss p == grad loss0 p)%Q.
Proof.
  destruct (train_batch_loss unit model_tracked model_tracked criterion_tracked sample2)
    as [loss|] eqn:Ht; [ | vm_compute in Ht; discriminate Ht ].
  exists loss.
  destruct (regulariser_terms_carry_no_gradient nat unit model_tracked model_tracked
              criterion_tracked sample2 loss Ht) as (loss0 & H0 & Hg).
  exists loss0. split; [ reflexivity | split; assumption ].
Defined.

End StepFacts.

(** ** The optimiser only moves the parameters it was built over *)

Module OptimizerFacts.

Import Optimizer.

Section Frame.

Variable V : Type.
Variable S : Type.
Variable accumulate : V -> V -> V.
Variable clip_by : Q -> list V -> V -> V.
Variable adam_rule : Q -> option S -> V -> V -> V * S.

Local Abbreviation step := (step V S adam_rule).
Local Abbreviation update := (update V S accumulate clip_by adam_rule).
Local Abbreviation train := (train V S accumulate clip_by adam_rule).

Lemma step_param_params_other (learning_rate : Q) (w : world V S) (q p : positive) :
  q <> p -> params V S (step_param V S adam_rule learning_rate w q) !! p = params V S w !! p.
Proof.
  intros Hne. unfold step_param.
  destruct (params V S w !! q); [ | reflexivity ].
  destruct (grads V S w !! q); [ | reflexivity ].
  destruct (adam_rule _ _ _ _). cbn. now apply lookup_insert_ne.
Qed.

Lemma step_param_grads (learning_rate : Q) (w : world V S) (q : positive) :
  grads V S (step_param V S adam_rule learning_rate w q) = grads V S w.
Proof.
  unfold step_param.
  destruct (params V S w !! q); [ | reflexivity ].
  destruct (grads V S w !! q); [ | reflexivity ].
  now destruct (adam_rule _ _ _ _).
Qed.

Lemma step_params_other (opt : optimizer) (w : world V S) (p : positive) :
  ~ In p (param_groups opt) -> params V S (step opt w) !! p = params V S w !! p.
Proof.
  unfold step. generalize (lr opt) as learning_rate. intros learning_rate.
  revert w. induction (param_groups opt) as [|q qs IH]; intros w Hp; cbn [fold_left].
  - reflexivity.
  - rewrite IH by (intros Hin; apply Hp; now right).
    apply step_param_params_other. intros ->. apply Hp. now left.
Qed.

Lemma step_grads (opt : optimizer) (w : world V S) :
  grads V S (step opt w) = grads V S w.
Proof.
  unfold step. generalize (lr opt) as learning_rate. intros learning_rate.
  revert w. induction (param_groups opt) as [|q qs IH]; intros w; cbn [fold_left].
  - reflexivity.
  - now rewrite IH, step_param_grads.
Qed.

Lemma fold_alter_other (f : V -> V) (ps : list positive) (gr : gmap positive V) (p : positive) :
  ~ In p ps -> fold_left (fun gr q => alter f q gr) ps gr !! p = gr !! p.
Proof.
  revert gr. induction ps as [|q qs IH]; intros gr Hp; cbn [fold_left]; [ reflexivity | ].
  rewrite IH by (intros Hin; apply Hp; now right).
  apply lookup_alter_ne. intros ->. apply Hp. now left.
Qed.

Lemma fold_delete_other (ps : list positive) (gr : gmap positive V) (p : positive) :
  ~ In p ps -> fold_left (fun gr q => delete q gr) ps gr !! p = gr !! p.
Proof.
  revert gr. induction ps as [|q qs IH]; intros gr Hp; cbn [fold_left]; [ reflexivity | ].
  rewrite IH by (intros Hin; apply Hp; now right).
  apply lookup_delete_ne. intros ->. apply Hp. now left.
Qed.

Lemma update_params_other (ps : list positive) (opt : optimizer) (clip_norm : Q)
    (w : world V S) (g : gmap positive V) (p : positive) :
  ~ In p (param_groups opt) ->
  params V S (update ps opt clip_norm w g) !! p = params V S w !! p.
Proof.
  intros Hp. unfold update, zero_grad, clip_grad_norm_, backward. cbn [params].
  now rewrite step_params_other.
Qed.

Lemma train_params_other (ps : list positive) (opt : optimizer) (clip_norm : Q)
    (batches : list (gmap positive V)) (w : world V S) (p : positive) :
  ~ In p (param_groups opt) ->
  params V S (train ps opt clip_norm batches w) !! p = params V S w !! p.
Proof.
  intros Hp. unfold train. revert w.
  induction batches as [|g gs IH]; intros w; cbn [fold_left]; [ reflexivity | ].
  rewrite IH. now apply update_params_other.
Qed.

(** C4. With the single optimiser built over the forward model's
    parameters (line 121), and the two models sharing no parameter, an
    optimiser step leaves every parameter of the reverse model as it was, and
    so does the whole update of a batch and of any sequence of batches; this
    although the backward pass of the batch has stored a gradient for that
    parameter, which the update leaves in place. *)
Theorem optimizer_leaves_reverse_model
    (model_parameters model_rev_parameters : list positive) (learning_rate clip_norm : Q)
    (batches : list (gmap positive V)) (g : gmap positive V) (w : world V S)
    (p : positive) :
  (forall q, In q model_parameters -> ~ In q model_rev_parameters) ->
  In p model_rev_parameters ->
  params V S (step (Adam model_parameters learning_rate) w) !! p = params V S w !! p /\
  params V S (update model_parameters (Adam model_parameters learning_rate) clip_norm w g) !! p
    = params V S w !! p /\
  params V S (train model_parameters (Adam model_parameters learning_rate) clip_norm batches w) !! p
    = params V S w !! p /\
  (is_Some (g !! p) ->
   is_Some (grads V S (update model_parameters (Adam model_parameters learning_rate)
                         clip_norm w g) !! p)).
Proof.
  intros Hdisj Hp.
  assert (Hn : ~ In p (param_groups (Adam model_parameters learning_rate))).
  { cbn. intros Hin. exact (Hdisj p Hin Hp). }
  split; [ now apply step_params_other | ].
  split; [ now apply update_params_other | ].
  split; [ now apply train_params_other | ].
  intros [gp Hgp]. unfold update, zero_grad. cbn [grads].
  rewrite fold_delete_other by exact Hn. rewrite step_grads.
  unfold clip_grad_norm_. cbn [grads].
  rewrite fold_alter_other by exact Hn.
  unfold backward. cbn [grads]. rewrite lookup_union_with, Hgp.
  destruct (grads V S w !! p); cbn; eauto.
Qed.

End Frame.

(** The same update does move the forward model's parameter: with a
    gradient of 1 and a learning rate of 1/10 it goes from 10 to 99/10. *)
Example update_moves_forward_parameter :
  Qred <$> (params Q unit (update Q unit Qplus (fun _ _ v => v) descent [1%positive]
                            (Adam [1%positive] (1 # 10)) 4 world2 gradients2) !! 1%positive)
    = Some (99 # 10)%Q.
Proof. vm_compute. reflexivity. Qed.

Lemma optimizer_leaves_reverse_model_witness :
  params Q unit (step Q unit descent (Adam [1%positive] (1 # 10)) world2) !! 2%positive
    = params Q unit world2 !! 2%positive /\
  params Q unit (update Q unit Qplus (fun _ _ v => v) descent [1%positive]
                   (Adam [1%positive] (1 # 10)) 4 world2 gradients2) !! 2%positive
    = params Q unit world2 !! 2%positive /\
  params Q unit (train Q unit Qplus (fun _ _ v => v) descent [1%positive]
                   (Adam [1%positive] (1 # 10)) 4 [gradients2; gradients2] world2) !! 2%positive
    = params Q unit world2 !! 2%positive /\
  is_Some (grads Q unit (update Q unit Qplus (fun _ _ v => v) descent [1%positive]
                           (Adam [1%positive] (1 # 10)) 4 world2 gradients2) !! 2%positive).
Proof.
  destruct (optimizer_leaves_reverse_model Q unit Qplus (fun _ _ v => v) descent
              [1%positive] [2%positive] (1 # 10) 4 [gradients2; gradients2] gradients2
              world2 2%positive) as (H1 & H2 & H3 & H4).
  - intros q [<-|[]] [H|[]]. discriminate H.
  - now left.
  - repeat split; try assumption. apply H4. exists 1%Q. reflexivity.
Defined.

End OptimizerFacts.

(** ** The regulariser in binary32: sign, and the effect of a rescaling *)

Module Float32Facts.

Import Tensor TensorFacts Float32.
Local Open Scope Z_scope.

(** *** Rounding keeps the sign *)

Lemma shr_1_m (mrs : shr_record) :
  0 <= shr_m mrs -> shr_m (shr_1 mrs) = Z.shiftr (shr_m mrs) 1.
Proof.
  destruct mrs as [[|[p|p|]|p] r s]; cbn; intros H; try reflexivity; lia.
Qed.

Lemma iter_shr_m (p : positive) :
  forall mrs, 0 <= shr_m mrs ->
    shr_m (SpecFloat.iter_pos shr_1 p mrs) = Z.shiftr (shr_m mrs) (Zpos p).
Proof.
  induction p as [p IH|p IH|]; intros mrs H; cbn [SpecFloat.iter_pos].
  - assert (H1 : 0 <= shr_m (shr_1 mrs)) by (rewrite shr_1_m by assumption; apply Z.shiftr_nonneg; assumption).
    assert (H2 : 0 <= shr_m (SpecFloat.iter_pos shr_1 p (shr_1 mrs))) by (rewrite IH by assumption; apply Z.shiftr_nonneg; assumption).
    rewrite IH, IH, shr_1_m by assumption.
    rewrite !Z.shiftr_shiftr by lia. f_equal. lia.
  - assert (H2 : 0 <= shr_m (SpecFloat.iter_pos shr_1 p mrs)) by (rewrite IH by assumption; apply Z.shiftr_nonneg; assumption).
    rewrite IH, IH by assumption.
    rewrite !Z.shiftr_shiftr by lia. f_equal. lia.
  - apply shr_1_m; assumption.
Qed.

Lemma shr_record_of_loc_m (m : Z) (l : location) : shr_m (shr_record_of_loc m l) = m.
Proof. destruct l as [|[]]; reflexivity. Qed.

Lemma digits2_pos_le (m : positive) : 2 ^ (Zpos (digits2_pos m) - 1) <= Zpos m.
Proof.
  induction m as [m IH|m IH|]; cbn [digits2_pos].
  - rewrite Pos2Z.inj_succ.
    replace (Z.succ (Zpos (digits2_pos m)) - 1) with (Z.succ (Zpos (digits2_pos m) - 1)) by lia.
    rewrite Z.pow_succ_r by lia. lia.
  - rewrite Pos2Z.inj_succ.
    replace (Z.succ (Zpos (digits2_pos m)) - 1) with (Z.succ (Zpos (digits2_pos m) - 1)) by lia.
    rewrite Z.pow_succ_r by lia. lia.
  - cbn. lia.
Qed.

Lemma shr_fexp_nonneg (m e : Z) (l : location) :
  0 <= m -> 0 <= shr_m (fst (shr_fexp prec emax m e l)).
Proof.
  intros H. unfold shr_fexp, shr.
  destruct (fexp prec emax (Zdigits2 m + e) - e) as [|p|p]; cbn [fst];
    try (rewrite shr_record_of_loc_m; assumption).
  rewrite iter_shr_m by (rewrite shr_record_of_loc_m; assumption).
  apply Z.shiftr_nonneg. rewrite shr_record_of_loc_m. assumption.
Qed.

Lemma shr_fexp_pos (m e : Z) (l : location) :
  0 < m -> -100 <= e ->
  0 < shr_m (fst (shr_fexp prec emax m e l)) /\ -100 <= snd (shr_fexp prec emax m e l).
Proof.
  intros H He. unfold shr_fexp, shr.
  destruct m as [|m|m]; try lia. cbn [Zdigits2].
  destruct (fexp prec emax (Zpos (digits2_pos m) + e) - e) as [|p|p] eqn:E; cbn [fst snd];
    try (rewrite shr_record_of_loc_m; split; lia).
  rewrite iter_shr_m by (rewrite shr_record_of_loc_m; lia).
  rewrite shr_record_of_loc_m. split; [|lia].
  rewrite Z.shiftr_div_pow2 by lia.
  apply Z.div_str_pos. split; [apply Z.pow_pos_nonneg; lia|].
  transitivity (2 ^ (Zpos (digits2_pos m) - 1)); [|apply digits2_pos_le].
  apply Z.pow_le_mono_r; [lia|].
  unfold fexp, emin, prec, emax in E. lia.
Qed.

Lemma round_nearest_even_ge (m : Z) (l : location) : m <= round_nearest_even m l.
Proof. destruct l as [|[]]; cbn; try lia. destruct (Z.even m); lia. Qed.

Lemma binary_round_aux_signed (s : bool) (m e : Z) (l : location) :
  0 <= m -> signed s (binary_round_aux prec emax s m e l).
Proof.
  intros H. unfold binary_round_aux.
  pose proof (shr_fexp_nonneg m e l H) as H1.
  destruct (shr_fexp prec emax m e l) as [mrs' e']. cbn [fst] in H1.
  pose proof (round_nearest_even_ge (shr_m mrs') (loc_of_shr_record mrs')) as H2.
  pose proof (shr_fexp_nonneg (round_nearest_even (shr_m mrs') (loc_of_shr_record mrs')) e' loc_Exact) as H3.
  destruct (shr_fexp prec emax _ e' loc_Exact) as [mrs'' e'']. cbn [fst] in H3.
  destruct (shr_m mrs'') as [|q|q]; [reflexivity| |lia].
  destruct (e'' <=? emax - prec); reflexivity.
Qed.

Lemma binary_round_aux_nonzero (s : bool) (m e : Z) (l : location) :
  0 < m -> -100 <= e -> signed_nonzero s (binary_round_aux prec emax s m e l).
Proof.
  intros H He. unfold binary_round_aux.
  pose proof (shr_fexp_pos m e l H He) as [H1 He1].
  destruct (shr_fexp prec emax m e l) as [mrs' e']. cbn [fst snd] in H1, He1.
  pose proof (round_nearest_even_ge (shr_m mrs') (loc_of_shr_record mrs')) as H2.
  pose proof (shr_fexp_pos (round_nearest_even (shr_m mrs') (loc_of_shr_record mrs')) e' loc_Exact) as H3.
  destruct (shr_fexp prec emax _ e' loc_Exact) as [mrs'' e'']. cbn [fst snd] in H3.
  destruct H3 as [H3 _]; [lia|lia|].
  destruct (shr_m mrs'') as [|q|q]; [lia| |lia].
  destruct (e'' <=? emax - prec); reflexivity.
Qed.

Lemma binary_round_signed (s : bool) (m : positive) (e : Z) :
  signed s (binary_round prec emax s m e).
Proof.
  unfold binary_round. destruct (shl_align _ _ _) as [mz ez].
  apply binary_round_aux_signed. lia.
Qed.

(** The conversion of a length: a positive integer never rounds to zero. *)
Lemma of_Z32_pos (z : Z) : 0 < z -> signed_nonzero false (of_Z32 z).
Proof.
  intros H. destruct z as [|m|m]; try lia.
  unfold of_Z32, binary_normalize, binary_round, shl_align.
  assert (He : -100 <= fexp prec emax (Zpos (digits2_pos m) + 0))
    by (unfold fexp, emin, prec, emax; lia).
  destruct (fexp prec emax (Zpos (digits2_pos m) + 0) - 0) as [|p|p];
    apply binary_round_aux_nonzero; lia.
Qed.

Lemma of_Z32_nonneg (z : Z) : 0 <= z -> signed false (of_Z32 z).
Proof.
  intros H. destruct z as [|m|m]; try lia; [reflexivity|].
  apply binary_round_signed.
Qed.


(** *** Sums of absolute values *)

Lemma signed_not_negative (x : spec_float) : signed false x -> not_negative x.
Proof. destruct x as [s|s| |s m e]; cbn; intros H; try subst s; auto. Qed.

Lemma not_negative_nonneg32 (x : spec_float) : not_negative x -> nonneg32 x.
Proof. destruct x as [s|[]| |[] m e]; cbn; intros H; try reflexivity; contradiction. Qed.

Lemma SFadd_not_negative (x y : spec_float) :
  not_negative x -> not_negative y -> not_negative (SFadd prec emax x y).
Proof.
  destruct x as [[]|[]| |[] mx ex], y as [[]|[]| |[] my ey]; cbn [not_negative SFadd];
    intros Hx Hy; try contradiction; try exact I.
  cbn [cond_Zopp Z.add binary_normalize]. apply signed_not_negative, binary_round_signed.
Qed.

Lemma SFadd_nan_or_not_negative (x y : spec_float) :
  nan_or_not_negative x -> nan_or_not_negative y ->
  nan_or_not_negative (SFadd prec emax x y).
Proof.
  intros [->|Hx] [->|Hy]; try (left; reflexivity).
  - left. destruct x as [s|s| |s m e]; reflexivity.
  - right. apply SFadd_not_negative; assumption.
Qed.

Lemma sum_upto_nan_or_not_negative (n : nat) (f : nat -> spec_float) :
  (forall k, nan_or_not_negative (f k)) -> nan_or_not_negative (sum_upto n f).
Proof.
  intros H. induction n as [|n IH]; cbn [sum_upto].
  - right. exact I.
  - apply SFadd_nan_or_not_negative; [exact IH | apply H].
Qed.

Lemma SFabs_nan_or_not_negative (x : spec_float) : nan_or_not_negative (SFabs x).
Proof. destruct x as [s|s| |s m e]; [right|right|left|right]; cbn; auto. Qed.

Lemma norm1_mat_nan_or_not_negative (t : tensor2 spec_float) :
  nan_or_not_negative (norm1_mat t).
Proof.
  unfold norm1_mat. apply sum_upto_nan_or_not_negative. intros b.
  apply sum_upto_nan_or_not_negative. intros i. apply SFabs_nan_or_not_negative.
Qed.

(** *** Quotients *)

Lemma SFdiv_finite_signed (sx sy : bool) (mx my : positive) (ex ey : Z) :
  signed (xorb sx sy)
    (SFdiv prec emax (S754_finite sx mx ex) (S754_finite sy my ey)).
Proof.
  unfold SFdiv, SFdiv_core_binary.
  set (s := ex - ey - _).
  set (m' := match s with Z0 => Zpos mx | Zpos _ => Z.shiftl (Zpos mx) s | Zneg _ => 0 end).
  assert (Hm : 0 <= m').
  { subst m'. destruct s; try lia. apply Z.shiftl_nonneg. lia. }
  pose proof (Z.div_pos m' (Zpos my) Hm ltac:(lia)) as Hq.
  unfold Z.div in Hq. destruct (Z.div_eucl m' (Zpos my)) as [q r].
  apply binary_round_aux_signed. exact Hq.
Qed.

(** A finite number that is not negative, over a positive divisor. *)
Lemma SFdiv_by_length (x y : spec_float) :
  match x with S754_zero _ | S754_finite false _ _ => True | _ => False end ->
  signed_nonzero false y -> not_negative (SFdiv prec emax x y).
Proof.
  destruct x as [s|s| |[] mx ex], y as [s'|s'| |s' my ey]; cbn [signed_nonzero];
    intros Hx Hy; try contradiction; try subst s'; try exact I.
  apply signed_not_negative. apply (SFdiv_finite_signed false false).
Qed.

Lemma SFdiv_by_positive_finite (x y : spec_float) :
  not_negative x -> positive_finite y -> not_negative (SFdiv prec emax x y).
Proof.
  destruct x as [s|[]| |[] mx ex], y as [s'|s'| |[] my ey]; cbn [not_negative positive_finite];
    intros Hx Hy; try contradiction; try exact I.
  apply signed_not_negative. apply (SFdiv_finite_signed false false).
Qed.

(** A finite denominator leaves no room for a diagonal norm that is NaN or
    infinite. *)
Lemma finite_denominator_diagonal (nf nd n : spec_float) :
  nan_or_not_negative nd ->
  positive_finite (SFdiv prec emax (SFsub prec emax nf nd) n) ->
  match nd with S754_zero _ | S754_finite false _ _ => True | _ => False end.
Proof.
  intros [->|Hnd].
  - destruct nf as [s|s| |s m e]; cbn; contradiction.
  - destruct nd as [s|[]| |[] m e]; cbn in Hnd; try contradiction; try (intros; exact I).
    destruct nf as [s|[]| |s m e], n as [s'|s'| |s' m' e']; cbn; try contradiction;
      destruct s'; cbn; contradiction.
Qed.

Lemma diag_ratio_nonneg32 (diff : tensor3 spec_float) :
  positive_finite (denominator diff) -> nonneg32 (diag_ratio diff).
Proof.
  intros H. unfold diag_ratio. apply not_negative_nonneg32.
  apply SFdiv_by_positive_finite; [|exact H].
  unfold numerator, denominator in *. cbv zeta in *.
  cbn [sdiv ssub of_int F32_Scalar] in *.
  pose proof (finite_denominator_diagonal _ _ _
                (norm1_mat_nan_or_not_negative (diagonal12 diff)) H) as Hnd.
  apply SFdiv_by_length; [exact Hnd|].
  apply of_Z32_pos.
  unfold len_mat. cbn [diagonal12 rows2].
  destruct (size0 diff) as [|b] eqn:EB; [|lia].
  exfalso. revert H. unfold norm1_flat, norm1_mat, len_flat, len_mat.
  cbn [view_flat diagonal12 rows2 cols2 len1]. rewrite EB. cbn. auto.
Qed.

(** *** The regulariser *)




End Float32Facts.

(** ** The two per-batch losses in binary32 *)

Module LossFacts.

Import Tensor Float32 Step Step32.

(** C3. The validator does not compute the training formula.  On a batch
    of two sequences whose summed forward and reverse cross-entropies are
    both 6 and whose regulariser terms are both 3, in the arithmetic of the
    code, the loss of a training step (lines 197-199) is
    6/2 + 3 + 6/2 + 3 = 12, and the loss of [validate] (line 275), which
    divides the reverse cross-entropy by the number of sequences and leaves
    the forward one undivided, is 6 + 3 + 6/2 + 3 = 15. *)
Theorem validate_loss_not_training_formula :
  get_diff (ones32 2 2 2) (ones32 2 2 1) (ones32 2 2 2) (ones32 2 2 1)
    = Some (of_Z32 3, of_Z32 3) /\
  train_batch_loss unit model_const32 model_const32 criterion_const32 sample2
    = Some (of_Z32 12) /\
  validate_batch_loss unit model_const32 model_const32 criterion_const32 sample2
    = Some (of_Z32 15) /\
  SFltb (of_Z32 12) (of_Z32 15) = true.
Proof. vm_compute. repeat split. Qed.

End LossFacts.

(** ** More on the epoch loop: running minimum, counters, termination *)

Module ControllerMore.

Import FloatOrder FloatOrderFacts Controller ControllerFacts.
Local Open Scope Z_scope.

(** On numbers the IEEE order is total: what is not below is at least. *)
Lemma SFltb_false_key (x y : spec_float) :
  x <> S754_nan -> y <> S754_nan ->
  SFltb x y = false -> key_le (key y) (key x).
Proof.
  intros Hx Hy. unfold SFltb, key_le.
  destruct x as [sx|sx| |sx mx ex]; destruct y as [sy|sy| |sy my ey];
    try congruence; simpl;
    try (destruct sx; simpl); try (destruct sy; simpl);
    try (intros _; lia); try discriminate.
  - destruct (Z.compare_spec ex ey) as [He|He|He];
      [ pose proof (Pcompare_Eq_cases mx my) as Hm;
        destruct (Pos.compare_cont Eq mx my); simpl | simpl | simpl ];
      try discriminate; intros _; lia.
  - destruct (Z.compare_spec ex ey) as [He|He|He];
      [ pose proof (Pcompare_Eq_cases mx my) as Hm;
        destruct (Pos.compare_cont Eq mx my); simpl | simpl | simpl ];
      try discriminate; intros _; lia.
Qed.

Lemma ltb_false_leb (x y : float) :
  not_nan x -> not_nan y -> (x <? y)%float = false -> (y <=? x)%float = true.
Proof.
  unfold not_nan. intros Hx Hy. rewrite ltb_spec, leb_spec. intros H.
  apply SFleb_key; try assumption. now apply SFltb_false_key.
Qed.

(** After an epoch, [best_validate] is at most the epoch's perplexity. *)
Lemma epoch_body_best_below validate a e st :
  not_nan (best_validate st) -> not_nan (validate e) ->
  float_ge (validate e) (best_validate (epoch_body validate a e st)).
Proof.
  intros Hb Hv. rewrite epoch_body_best. unfold float_ge.
  destruct (validate e <? best_validate st)%float eqn:Hlt.
  - now apply leb_refl.
  - now apply ltb_false_leb.
Qed.

(** In a run that starts from a state whose best is a number, every later
    state has a best that is a number and is at most the starting one. *)
Lemma epoch_loop_best_below validate a epochs st tr out pre e s post :
  not_nan (best_validate st) ->
  epoch_loop validate a epochs st = (tr, out) ->
  tr = pre ++ (e, s) :: post ->
  not_nan (best_validate s) /\ float_ge (best_validate st) (best_validate s).
Proof.
  intros Hn Hrun ->.
  destruct (epoch_loop_best_sorted _ _ _ _ _ _ Hn Hrun) as [Hall Hsorted].
  unfold best_history in *.
  apply StronglySorted_inv in Hsorted as [_ Hhd].
  inversion Hall as [|? ? _ Hall']; subst.
  rewrite List.Forall_forall in Hall', Hhd.
  assert (Hin : In (best_validate s)
                  (map (fun p => best_validate (snd p)) (pre ++ (e, s) :: post))).
  { apply in_map_iff. exists (e, s). split; [ reflexivity | ].
    apply in_or_app. right. now left. }
  split; [ now apply Hall' | now apply Hhd ].
Qed.

Lemma epoch_loop_minimum validate a epochs :
  forall st tr out, not_nan (best_validate st) ->
  epoch_loop validate a epochs st = (tr, out) ->
  forall pre e s post, tr = pre ++ (e, s) :: post ->
    (forall e', In e' (map fst pre ++ [e]) -> not_nan (validate e') ->
       float_ge (validate e') (best_validate s)) /\
    (best_validate s = best_validate st \/
     exists e', In e' (map fst pre ++ [e]) /\ best_validate s = validate e').
Proof.
  induction epochs as [|e0 rest IH]; intros st tr out Hn Hrun pre e s post Htr;
    cbn [epoch_loop] in Hrun.
  { inversion Hrun; subst. destruct pre; discriminate. }
  destruct (save_interval a =? 0).
  { inversion Hrun; subst. destruct pre; discriminate. }
  pose proof (epoch_body_best_le validate a e0 st Hn) as [Hn' Hle'].
  assert (Hhead : forall e', In e' [e0] -> not_nan (validate e') ->
            float_ge (validate e') (best_validate (epoch_body validate a e0 st))).
  { intros e' [<-|[]] Hv. now apply epoch_body_best_below. }
  assert (Hfrom : best_validate (epoch_body validate a e0 st) = best_validate st \/
                  best_validate (epoch_body validate a e0 st) = validate e0).
  { rewrite epoch_body_best. destruct (_ <? _)%float; auto. }
  destruct (patience a <=? _).
  - inversion Hrun; subst tr out. destruct pre as [|p pre].
    + inversion H0; subst. cbn [map app]. split; [ exact Hhead | ].
      destruct Hfrom as [Hf|Hf]; [ now left | right; exists e; split; [ now left | exact Hf ] ].
    + inversion H0. destruct pre; discriminate.
  - destruct (epoch_loop validate a rest (epoch_body validate a e0 st)) as [tr' out'] eqn:Hrest.
    inversion Hrun; subst out'. subst tr. destruct pre as [|p pre].
    + inversion H0; subst. cbn [map app]. split; [ exact Hhead | ].
      destruct Hfrom as [Hf|Hf]; [ now left | right; exists e; split; [ now left | exact Hf ] ].
    + inversion H0; subst p tr'. cbn [map fst app].
      destruct (IH _ _ _ Hn' Hrest pre e s post eq_refl) as [Hlow Hsrc].
      destruct (epoch_loop_best_below _ _ _ _ _ _ pre e s post Hn' Hrest eq_refl) as [Hns Hge].
      split.
      * intros e' [<-|Hin] Hv; [ | now apply Hlow ].
        unfold float_ge in *.
        apply leb_trans with (best_validate (epoch_body validate a e0 st)); auto.
        now apply epoch_body_best_below.
      * destruct Hsrc as [Hs|[e' [Hin Hs]]].
        -- rewrite Hs. destruct Hfrom as [Hf|Hf]; [ now left | ].
           right. exists e0. split; [ now left | exact Hf ].
        -- right. exists e'. split; [ now right | exact Hs ].
Qed.

(** X1. In every run, the best_validate an epoch leaves is the running
    minimum of the perplexities returned so far: it is never NaN, it is at
    most every perplexity of this or an earlier epoch of the run that is a
    number, and it is either the initial infinity or one of those
    perplexities. *)
Theorem best_validate_is_running_minimum (validate : Z -> float) (a : args)
    (file : option checkpoint) (tr : list (Z * controller)) (out : outcome)
    (pre : list (Z * controller)) (e : Z) (s : controller)
    (post : list (Z * controller)) :
  main validate a file = (tr, out) ->
  tr = pre ++ (e, s) :: post ->
  not_nan (best_validate s) /\
  (forall e', In e' (map fst pre ++ [e]) -> not_nan (validate e') ->
     float_ge (validate e') (best_validate s)) /\
  (best_validate s = infinity \/
   exists e', In e' (map fst pre ++ [e]) /\ best_validate s = validate e').
Proof.
  unfold main. cbn [startup fst snd]. intros Hrun Htr.
  split.
  - eapply (epoch_loop_best_below validate a _ (Controller 0 infinity file));
      eauto using infinity_not_nan.
  - apply (epoch_loop_minimum validate a _ (Controller 0 infinity file) tr out
             infinity_not_nan Hrun pre e s post Htr).
Qed.

Lemma best_validate_is_running_minimum_witness :
  not_nan 4.0%float /\
  (forall e', In e' (map fst [(0, Controller 0 5.0%float (Some (Checkpoint 0 5.0%float)))] ++ [1]) ->
     not_nan (validate_of scenario e') -> float_ge (validate_of scenario e') 4.0%float) /\
  (4.0%float = infinity \/
   exists e', In e' (map fst [(0, Controller 0 5.0%float (Some (Checkpoint 0 5.0%float)))] ++ [1])
              /\ 4.0%float = validate_of scenario e').
Proof.
  apply (best_validate_is_running_minimum (validate_of scenario) (Args 2 3 1) None
           [(0, Controller 0 5.0%float (Some (Checkpoint 0 5.0%float)));
            (1, Controller 0 4.0%float (Some (Checkpoint 1 4.0%float)))]
           MAX_EPOCH_REACHED
           [(0, Controller 0 5.0%float (Some (Checkpoint 0 5.0%float)))]
           1 (Controller 0 4.0%float (Some (Checkpoint 1 4.0%float))) []).
  - vm_compute. reflexivity.
  - reflexivity.
Defined.

(** *** Which epochs run *)

Lemma range_empty (lo hi : Z) : hi <= lo -> range lo hi = [].
Proof.
  intros H. unfold range. replace (Z.to_nat (hi - lo)) with 0%nat by lia. reflexivity.
Qed.

Lemma range_length (lo hi : Z) : length (range lo hi) = Z.to_nat (hi - lo).
Proof. unfold range. now rewrite length_map, length_seq. Qed.

Lemma range_prefix (l rest : list Z) :
  forall lo hi, range lo hi = l ++ rest -> l = range lo (lo + Z.of_nat (length l)).
Proof.
  induction l as [|x l IH]; intros lo hi H.
  - cbn. now rewrite range_empty by lia.
  - destruct (Z_lt_le_dec lo hi) as [Hlt|Hge].
    + rewrite range_cons in H by assumption. cbn [app] in H. inversion H; subst x.
      rewrite (range_cons lo) by (cbn [length]; lia). f_equal.
      rewrite (IH _ _ H2) at 1. f_equal. cbn [length]. lia.
    + rewrite range_empty in H by assumption. discriminate.
Qed.

Lemma epoch_loop_exhausted validate a epochs :
  forall st tr, epoch_loop validate a epochs st = (tr, MAX_EPOCH_REACHED) ->
  map fst tr = epochs.
Proof.
  induction epochs as [|e0 rest IH]; intros st tr Hrun; cbn [epoch_loop] in Hrun.
  - now inversion Hrun.
  - destruct (save_interval a =? 0); [ discriminate | ].
    destruct (patience a <=? _); [ discriminate | ].
    destruct (epoch_loop validate a rest _) as [tr' out'] eqn:Hrest.
    inversion Hrun; subst. cbn. f_equal. eapply IH; eauto.
Qed.

(** X2. The epochs a run completes are consecutive, starting right after
    the restored last epoch (at 0 without a checkpoint); there are never more
    of them than the range up to [max_epoch] holds, so a restart at or beyond
    [max_epoch] runs nothing; and a run that ends because the range is
    exhausted has completed every epoch of it. *)
Theorem epochs_run_are_consecutive (validate : Z -> float) (a : args)
    (file : option checkpoint) (tr : list (Z * controller)) (out : outcome) :
  main validate a file = (tr, out) ->
  map fst tr = range (restored_last_epoch (load_checkpoint file) + 1)
                     (restored_last_epoch (load_checkpoint file) + 1 + Z.of_nat (length tr)) /\
  Z.of_nat (length tr)
    <= Z.max 0 (max_epoch a - (restored_last_epoch (load_checkpoint file) + 1)) /\
  (out = MAX_EPOCH_REACHED ->
   map fst tr = range (restored_last_epoch (load_checkpoint file) + 1) (max_epoch a)).
Proof.
  unfold main. cbn [startup fst snd]. intros Hrun.
  destruct (epoch_loop_epochs _ _ _ _ _ _ Hrun) as [rest Hrest].
  split; [ | split ].
  - rewrite <- (length_map fst tr). eapply range_prefix. exact Hrest.
  - apply (f_equal (@length Z)) in Hrest.
    rewrite range_length, length_app, length_map in Hrest. lia.
  - intros ->. now apply epoch_loop_exhausted in Hrun.
Qed.

Lemma epochs_run_are_consecutive_witness :
  map fst (fst (main (validate_of scenario) (Args 4 3 1) (Some (Checkpoint 1 4.0%float))))
  = range (restored_last_epoch (load_checkpoint (Some (Checkpoint 1 4.0%float))) + 1)
          (restored_last_epoch (load_checkpoint (Some (Checkpoint 1 4.0%float))) + 1
           + Z.of_nat (length (fst (main (validate_of scenario) (Args 4 3 1)
                                      (Some (Checkpoint 1 4.0%float)))))) /\
  Z.of_nat (length (fst (main (validate_of scenario) (Args 4 3 1)
                           (Some (Checkpoint 1 4.0%float)))))
    <= Z.max 0 (max_epoch (Args 4 3 1)
                - (restored_last_epoch (load_checkpoint (Some (Checkpoint 1 4.0%float))) + 1)) /\
  (snd (main (validate_of scenario) (Args 4 3 1) (Some (Checkpoint 1 4.0%float)))
     = MAX_EPOCH_REACHED ->
   map fst (fst (main (validate_of scenario) (Args 4 3 1) (Some (Checkpoint 1 4.0%float))))
   = range (restored_last_epoch (load_checkpoint (Some (Checkpoint 1 4.0%float))) + 1)
           (max_epoch (Args 4 3 1))).
Proof.
  apply (epochs_run_are_consecutive (validate_of scenario) (Args 4 3 1)
           (Some (Checkpoint 1 4.0%float))).
  apply surjective_pairing.
Defined.

(** *** The bad-epoch counter *)

Lemma epoch_loop_bad_bounds validate a epochs :
  forall st tr out, 0 <= bad_epochs st < patience a ->
  epoch_loop validate a epochs st = (tr, out) ->
  Forall (fun p => 0 <= bad_epochs (snd p) <= patience a) tr.
Proof.
  induction epochs as [|e0 rest IH]; intros st tr out Hb Hrun; cbn [epoch_loop] in Hrun.
  - inversion Hrun. constructor.
  - destruct (save_interval a =? 0); [ inversion Hrun; constructor | ].
    assert (Hb' : 0 <= bad_epochs (epoch_body validate a e0 st) <= patience a).
    { rewrite epoch_body_bad. destruct (_ <? _)%float; lia. }
    destruct (Z.leb_spec (patience a) (bad_epochs (epoch_body validate a e0 st))).
    + inversion Hrun. constructor; [ assumption | constructor ].
    + destruct (epoch_loop validate a rest _) as [tr' out'] eqn:Hrest.
      inversion Hrun; subst. constructor; [ assumption | ].
      eapply IH; [ | exact Hrest ]. lia.
Qed.

(** X3. With a patience of at least 1, [bad_epochs] stays between 0 and the
    patience after every epoch; it is below the patience after every epoch
    but the last, and a run that ends by early stop ends with [bad_epochs]
    equal to the patience. *)
Theorem bad_epochs_bounded_by_patience (validate : Z -> float) (a : args)
    (file : option checkpoint) (tr : list (Z * controller)) (out : outcome)
    (pre : list (Z * controller)) (e : Z) (s : controller)
    (post : list (Z * controller)) :
  1 <= patience a ->
  main validate a file = (tr, out) ->
  tr = pre ++ (e, s) :: post ->
  0 <= bad_epochs s <= patience a /\
  (post <> [] -> bad_epochs s < patience a) /\
  (post = [] -> out = EARLY_STOPPED -> bad_epochs s = patience a).
Proof.
  unfold main. cbn [startup fst snd]. intros Hp Hrun Htr.
  assert (Hall := epoch_loop_bad_bounds validate a _ (Controller 0 infinity file) tr out
                    ltac:(cbn; lia) Hrun).
  rewrite List.Forall_forall in Hall.
  assert (Hb : 0 <= bad_epochs s <= patience a).
  { apply (Hall (e, s)). subst tr. apply in_or_app. right. now left. }
  destruct (epoch_loop_steps _ _ _ _ _ _ Hrun pre e s post Htr) as (_ & Hstop & Hgo).
  split; [ exact Hb | split ].
  - intros Hne. destruct (Z_lt_le_dec (bad_epochs s) (patience a)) as [|Hge]; [ assumption | ].
    destruct (Hstop Hge) as [-> _]. contradiction.
  - intros Hnil Hout. destruct (Z_lt_le_dec (bad_epochs s) (patience a)) as [Hlt|Hge]; [ | lia ].
    destruct (Hgo Hlt Hnil) as [E|E]; rewrite E in Hout; discriminate.
Qed.

Lemma bad_epochs_bounded_by_patience_witness :
  0 <= bad_epochs (Controller 0 5.0%float (Some (Checkpoint 0 5.0%float))) <= 3 /\
  ([(1, Controller 0 4.0%float (Some (Checkpoint 1 4.0%float)))] <> [] ->
   bad_epochs (Controller 0 5.0%float (Some (Checkpoint 0 5.0%float))) < 3) /\
  ([(1, Controller 0 4.0%float (Some (Checkpoint 1 4.0%float)))] = [] ->
   MAX_EPOCH_REACHED = EARLY_STOPPED ->
   bad_epochs (Controller 0 5.0%float (Some (Checkpoint 0 5.0%float))) = 3).
Proof.
  apply (bad_epochs_bounded_by_patience (validate_of scenario) (Args 2 3 1) None
           [(0, Controller 0 5.0%float (Some (Checkpoint 0 5.0%float)));
            (1, Controller 0 4.0%float (Some (Checkpoint 1 4.0%float)))]
           MAX_EPOCH_REACHED [] 0
           (Controller 0 5.0%float (Some (Checkpoint 0 5.0%float)))
           [(1, Controller 0 4.0%float (Some (Checkpoint 1 4.0%float)))]).
  - cbn. lia.
  - vm_compute. reflexivity.
  - reflexivity.
Defined.

(** *** Edge cases of the arguments *)

(** X4. With a patience of 0 or less the loop breaks after the first epoch
    it runs, improvement or not (when there is an epoch to run and the save
    interval is not zero). *)
Theorem nonpositive_patience_runs_one_epoch (validate : Z -> float) (a : args)
    (file : option checkpoint) :
  patience a <= 0 -> save_interval a <> 0 ->
  restored_last_epoch (load_checkpoint file) + 1 < max_epoch a ->
  exists s,
    main validate a file
    = ([(restored_last_epoch (load_checkpoint file) + 1, s)], EARLY_STOPPED).
Proof.
  intros Hp Hs Hlt. unfold main. cbn [startup fst snd].
  rewrite range_cons by assumption. rewrite epoch_loop_cons by assumption.
  eexists. destruct (Z.leb_spec (patience a)
    (bad_epochs (epoch_body validate a (restored_last_epoch (load_checkpoint file) + 1)
                   (Controller 0 infinity file)))) as [|Hgt]; [ reflexivity | ].
  rewrite epoch_body_bad in Hgt. cbn [bad_epochs] in Hgt.
  destruct (_ <? _)%float; lia.
Qed.

Lemma nonpositive_patience_runs_one_epoch_witness :
  exists s,
    main (validate_of scenario) (Args 10 0 1) None
    = ([(restored_last_epoch (load_checkpoint None) + 1, s)], EARLY_STOPPED).
Proof.
  apply (nonpositive_patience_runs_one_epoch (validate_of scenario) (Args 10 0 1) None);
    cbn; lia.
Defined.

Lemma epoch_loop_raised validate a epochs :
  forall st tr, epoch_loop validate a epochs st = (tr, RAISED) ->
  save_interval a = 0 /\ tr = [] /\ epochs <> [].
Proof.
  induction epochs as [|e0 rest IH]; intros st tr Hrun; cbn [epoch_loop] in Hrun.
  - discriminate.
  - destruct (Z.eqb_spec (save_interval a) 0) as [Hz|Hnz].
    + inversion Hrun. repeat split; [ assumption | discriminate ].
    + destruct (patience a <=? _); [ discriminate | ].
      destruct (epoch_loop validate a rest _) as [tr' out'] eqn:Hrest.
      inversion Hrun; subst. destruct (IH _ _ Hrest) as [Hz _]. contradiction.
Qed.

(** X5. The run raises exactly when the save interval is 0 and there is an
    epoch to run; it then raises in the first epoch, before any epoch has
    completed its early-stopping update. *)
Theorem zero_save_interval_raises (validate : Z -> float) (a : args)
    (file : option checkpoint) :
  (snd (main validate a file) = RAISED <->
   save_interval a = 0 /\ restored_last_epoch (load_checkpoint file) + 1 < max_epoch a) /\
  (snd (main validate a file) = RAISED -> fst (main validate a file) = []).
Proof.
  unfold main. cbn [startup fst snd].
  destruct (epoch_loop validate a _ _) as [tr out] eqn:Hrun. cbn [fst snd].
  split; [ split | ].
  - intros ->. destruct (epoch_loop_raised _ _ _ _ _ Hrun) as (Hz & _ & Hne).
    split; [ assumption | ].
    destruct (Z_lt_le_dec (restored_last_epoch (load_checkpoint file) + 1) (max_epoch a));
      [ assumption | ].
    rewrite range_empty in Hne by assumption. contradiction.
  - intros [Hz Hlt]. rewrite range_cons in Hrun by assumption.
    cbn [epoch_loop] in Hrun. rewrite Hz in Hrun. cbn in Hrun. now inversion Hrun.
  - intros ->. now destruct (epoch_loop_raised _ _ _ _ _ Hrun) as (_ & -> & _).
Qed.

(** *** A validator that never improves *)

Lemma epoch_loop_never_improves validate a (n : nat) :
  (forall e, (validate e <? infinity)%float = false) ->
  save_interval a <> 0 ->
  forall lo hi st,
  best_validate st = infinity -> 0 <= bad_epochs st ->
  bad_epochs st + Z.of_nat (S n) = patience a ->
  lo + Z.of_nat (S n) <= hi ->
  exists tr,
    epoch_loop validate a (range lo hi) st = (tr, EARLY_STOPPED) /\
    map fst tr = range lo (lo + Z.of_nat (S n)) /\
    Forall (fun p => best_validate (snd p) = infinity) tr.
Proof.
  intros Hv Hs. induction n as [|n IH]; intros lo hi st Hbest Hbad Hp Hhi.
  - rewrite range_cons by lia. rewrite epoch_loop_cons by assumption.
    rewrite epoch_body_bad, Hbest, Hv.
    destruct (Z.leb_spec (patience a) (bad_epochs st + 1)); [ | lia ].
    eexists. split; [ reflexivity | split ].
    + cbn [map fst]. rewrite (range_cons lo) by lia. now rewrite range_empty by lia.
    + repeat constructor. cbn [snd]. now rewrite epoch_body_best, Hbest, Hv.
  - rewrite range_cons by lia. rewrite epoch_loop_cons by assumption.
    rewrite epoch_body_bad, Hbest, Hv.
    destruct (Z.leb_spec (patience a) (bad_epochs st + 1)); [ lia | ].
    assert (Hb' : best_validate (epoch_body validate a lo st) = infinity)
      by now rewrite epoch_body_best, Hbest, Hv.
    destruct (IH (lo + 1) hi (epoch_body validate a lo st) Hb') as (tr & Hrun & Hfst & Hall).
    + rewrite epoch_body_bad, Hbest, Hv. lia.
    + rewrite epoch_body_bad, Hbest, Hv. lia.
    + lia.
    + rewrite Hrun. eexists. split; [ reflexivity | split ].
      * cbn [map fst]. rewrite Hfst. rewrite (range_cons lo) by lia.
        f_equal. f_equal. lia.
      * constructor; [ exact Hb' | exact Hall ].
Qed.

(** X6. If no perplexity the validator returns is below infinity (each is
    NaN or infinite), the patience is at least 1, the save interval is not
    zero and enough epochs are allowed, then the run completes exactly
    [patience] epochs and stops early, with [best_validate] still infinite
    after each of them. *)
Theorem no_improvement_stops_after_patience (validate : Z -> float) (a : args)
    (file : option checkpoint) :
  (forall e, (validate e <? infinity)%float = false) ->
  1 <= patience a -> save_interval a <> 0 ->
  restored_last_epoch (load_checkpoint file) + 1 + patience a <= max_epoch a ->
  exists tr,
    main validate a file = (tr, EARLY_STOPPED) /\
    map fst tr = range (restored_last_epoch (load_checkpoint file) + 1)
                       (restored_last_epoch (load_checkpoint file) + 1 + patience a) /\
    Forall (fun p => best_validate (snd p) = infinity) tr.
Proof.
  intros Hv Hp Hs Hmax. unfold main. cbn [startup fst snd].
  destruct (epoch_loop_never_improves validate a (Z.to_nat (patience a - 1)) Hv Hs
              (restored_last_epoch (load_checkpoint file) + 1) (max_epoch a)
              (Controller 0 infinity file)) as (tr & Hrun & Hfst & Hall);
    try (cbn [best_validate bad_epochs]; lia); [ reflexivity | ].
  exists tr. split; [ exact Hrun | split; [ | exact Hall ] ].
  rewrite Hfst. f_equal. lia.
Qed.

Lemma no_improvement_stops_after_patience_witness :
  exists tr,
    main (fun _ => nan) (Args 10 3 1) None = (tr, EARLY_STOPPED) /\
    map fst tr = range (restored_last_epoch (load_checkpoint None) + 1)
                       (restored_last_epoch (load_checkpoint None) + 1 + patience (Args 10 3 1)) /\
    Forall (fun p => best_validate (snd p) = infinity) tr.
Proof.
  apply (no_improvement_stops_after_patience (fun _ => nan) (Args 10 3 1) None).
  - intros e. reflexivity.
  - cbn. lia.
  - cbn. lia.
  - cbn. lia.
Defined.

End ControllerMore.

(** ** More on the regulariser: shapes and symmetry *)

Module TensorMore.

Import Tensor TensorFacts.

(** *** When [get_diff] is defined *)

Lemma bmm_is_Some {A : Type} {SA : Scalar A} (x y : tensor3 A) :
  is_Some (bmm x y) <-> (size0 x = size0 y /\ size2 x = size1 y).
Proof.
  unfold bmm.
  destruct (Nat.eqb_spec (size0 x) (size0 y)) as [H0|H0];
    destruct (Nat.eqb_spec (size2 x) (size1 y)) as [H2|H2]; cbn [andb];
    split; try (intros [? ?]; discriminate); try (intros [? ?]; contradiction); eauto.
Qed.

Lemma bmm_sizes {A : Type} {SA : Scalar A} (x y diff : tensor3 A) :
  bmm x y = Some diff ->
  size0 diff = size0 x /\ size1 diff = size1 x /\ size2 diff = size2 y.
Proof.
  unfold bmm. destruct (_ && _); [ | discriminate ].
  intros H. inversion H. cbn. auto.
Qed.

(** X7. [get_diff] returns a pair exactly when the shapes fit: [att] is
    [B, T, S] against [src_out] of [S, B, H], [att_rev] is [B, T', S']
    against [src_out_rev] of [S', B, H], with the same batch size [B] and the
    same hidden size [H] in both directions; for any other shapes a batched
    product raises.  The two product matrices then have the shapes
    [B, T, S'] and [B, T', S]. *)
Theorem get_diff_defined_iff_shapes {A : Type} {SA : Scalar A}
    (att src_out att_rev src_out_rev : tensor3 A) :
  (is_Some (get_diff att src_out att_rev src_out_rev) <->
   (size0 att = size1 src_out /\ size2 att = size0 src_out /\
    size0 att_rev = size1 src_out_rev /\ size2 att_rev = size0 src_out_rev /\
    size0 att = size0 att_rev /\ size2 src_out = size2 src_out_rev)) /\
  (forall diff diff_rev,
     diff_matrices att src_out att_rev src_out_rev = Some (diff, diff_rev) ->
     (size0 diff, size1 diff, size2 diff)
       = (size0 att, size1 att, size0 src_out_rev) /\
     (size0 diff_rev, size1 diff_rev, size2 diff_rev)
       = (size0 att_rev, size1 att_rev, size0 src_out)).
Proof.
  rewrite get_diff_matrices. unfold diff_matrices. split.
  - destruct (bmm att (transpose01 src_out)) as [acontext|] eqn:H1.
    2:{ cbn. split; [ intros [? ?]; discriminate | ].
        intros (E1 & E2 & _). assert (Hs : is_Some (bmm att (transpose01 src_out)))
          by (apply bmm_is_Some; cbn; auto).
        rewrite H1 in Hs. destruct Hs; discriminate. }
    destruct (bmm att_rev (transpose01 src_out_rev)) as [acontext_rev|] eqn:H2.
    2:{ cbn. split; [ intros [? ?]; discriminate | ].
        intros (_ & _ & E3 & E4 & _).
        assert (Hs : is_Some (bmm att_rev (transpose01 src_out_rev)))
          by (apply bmm_is_Some; cbn; auto).
        rewrite H2 in Hs. destruct Hs; discriminate. }
    cbn [mbind option_bind].
    destruct (bmm_sizes _ _ _ H1) as (A0 & A1 & A2).
    destruct (bmm_sizes _ _ _ H2) as (R0 & R1 & R2).
    assert (S1 : is_Some (bmm att (transpose01 src_out))) by (rewrite H1; eauto).
    assert (S2 : is_Some (bmm att_rev (transpose01 src_out_rev))) by (rewrite H2; eauto).
    apply bmm_is_Some in S1, S2. cbn in S1, S2, A2, R2.
    destruct (bmm acontext _) as [diff|] eqn:H3.
    2:{ cbn. split; [ intros [? ?]; discriminate | ].
        intros (E1 & E2 & E3 & E4 & E5 & E6).
        assert (Hs : is_Some (bmm acontext (transpose12 (transpose01 src_out_rev))))
          by (apply bmm_is_Some; cbn; lia).
        rewrite H3 in Hs. destruct Hs; discriminate. }
    cbn [mbind option_bind].
    assert (S3 : is_Some (bmm acontext (transpose12 (transpose01 src_out_rev))))
      by (rewrite H3; eauto).
    apply bmm_is_Some in S3. cbn in S3.
    destruct (bmm acontext_rev _) as [diff_rev|] eqn:H4.
    2:{ cbn. split; [ intros [? ?]; discriminate | ].
        intros (E1 & E2 & E3 & E4 & E5 & E6).
        assert (Hs : is_Some (bmm acontext_rev (transpose12 (transpose01 src_out))))
          by (apply bmm_is_Some; cbn; lia).
        rewrite H4 in Hs. destruct Hs; discriminate. }
    cbn. split; [ intros _; lia | eauto ].
  - intros diff diff_rev Hm.
    destruct (bmm att (transpose01 src_out)) as [acontext|] eqn:H1; [ | discriminate ].
    destruct (bmm att_rev (transpose01 src_out_rev)) as [acontext_rev|] eqn:H2; [ | discriminate ].
    cbn [mbind option_bind] in Hm.
    destruct (bmm acontext _) as [m1|] eqn:H3; [ | discriminate ].
    cbn [mbind option_bind] in Hm.
    destruct (bmm acontext_rev _) as [m2|] eqn:H4; [ | discriminate ].
    inversion Hm; subst m1 m2.
    destruct (bmm_sizes _ _ _ H1) as (A0 & A1 & A2).
    destruct (bmm_sizes _ _ _ H2) as (R0 & R1 & R2).
    destruct (bmm_sizes _ _ _ H3) as (D0 & D1 & D2).
    destruct (bmm_sizes _ _ _ H4) as (E0 & E1 & E2).
    cbn in *. split; congruence.
Qed.

(** X8. The regulariser is symmetric in the two directions: exchanging the
    forward and the reverse inputs exchanges [d] and [d_rev], and fails on
    the same inputs. *)
Theorem get_diff_swaps_with_directions {A : Type} {SA : Scalar A}
    (att src_out att_rev src_out_rev : tensor3 A) :
  get_diff att_rev src_out_rev att src_out
  = (fun p => (snd p, fst p)) <$> get_diff att src_out att_rev src_out_rev.
Proof.
  rewrite !get_diff_matrices. unfold diff_matrices.
  destruct (bmm att (transpose01 src_out)) as [acontext|];
    destruct (bmm att_rev (transpose01 src_out_rev)) as [acontext_rev|];
    cbn [mbind option_bind]; try reflexivity.
  destruct (bmm acontext _) as [diff|];
    destruct (bmm acontext_rev _) as [diff_rev|]; reflexivity.
Qed.

End TensorMore.

(** ** More on the reverse-direction inputs *)

Module StepMore.

Import Tensor TensorFacts Step StepFacts.
Local Open Scope Z_scope.

(** X12. The derivation of [src_inputs] raises exactly on a batch with no
    row or with an empty row 0; otherwise it returns a tensor of the same
    shape (as many rows, each of its length) whose rows after row 0 are the
    rows of [src_tokens]. *)
Theorem rotate_row0_defined_and_shape (src_tokens : list (list Z)) :
  (rotate_row0 src_tokens = None <->
   src_tokens = [] \/ exists rest, src_tokens = [] :: rest) /\
  (forall src_inputs, rotate_row0 src_tokens = Some src_inputs ->
     map (@length Z) src_inputs = map (@length Z) src_tokens /\
     tl src_inputs = tl src_tokens).
Proof.
  destruct src_tokens as [|row0 rest].
  - split; [ split; auto | discriminate ].
  - destruct row0 as [|x row0].
    + split; [ split; [ intros _; right; now exists rest | reflexivity ] | discriminate ].
    + assert (Hne : x :: row0 <> []) by discriminate.
      rewrite (rotate_row0_forward _ rest Hne). split.
      * split; [ discriminate | ]. intros [H|[r H]]; discriminate.
      * intros src_inputs H. inversion H; subst. cbn [map tl]. split; [ | reflexivity ].
        f_equal. unfold rotate_forward.
        rewrite length_app, length_drop, length_take. lia.
Qed.

(** Entry [j] of the rotated row is entry [j - 1] of the row, cyclically. *)
Lemma rotate_forward_lookup (row : list Z) (j : nat) :
  (j < length row)%nat ->
  rotate_forward row !! j = row !! ((j + (length row - 1)) mod length row)%nat.
Proof.
  intros Hj. assert (Hne : row <> []) by (destruct row; [ cbn in Hj; lia | discriminate ]).
  destruct (exists_last Hne) as [t [x ->]]. rewrite rotate_forward_snoc.
  rewrite length_app in *. cbn [length] in *.
  replace (length t + 1 - 1)%nat with (length t) by lia.
  destruct j as [|j].
  - rewrite Nat.mod_small by lia. cbn. now rewrite list_lookup_middle.
  - replace (S j + length t)%nat with (j + 1 * (length t + 1))%nat by lia.
    rewrite Nat.Div0.mod_add, Nat.mod_small by lia.
    cbn. now rewrite lookup_app_l by lia.
Qed.

Lemma rotate_forward_length (row : list Z) : length (rotate_forward row) = length row.
Proof. unfold rotate_forward. rewrite length_app, length_drop, length_take. lia. Qed.

Lemma rotate_forward_iter (row : list Z) (k : nat) :
  length (Nat.iter k rotate_forward row) = length row /\
  forall j, (j < length row)%nat ->
    Nat.iter k rotate_forward row !! j
    = row !! ((j + k * (length row - 1)) mod length row)%nat.
Proof.
  induction k as [|k [IHlen IH]].
  - split; [ reflexivity | ]. intros j Hj. change (Nat.iter 0 rotate_forward row) with row.
    now rewrite Nat.mul_0_l, Nat.add_0_r, Nat.mod_small.
  - rewrite Nat.iter_succ. split; [ now rewrite rotate_forward_length | ].
    intros j Hj. rewrite rotate_forward_lookup by lia. rewrite IHlen.
    rewrite IH by (apply Nat.mod_upper_bound; lia).
    rewrite Nat.Div0.add_mod_idemp_l. f_equal. f_equal. lia.
Qed.

Lemma rotate_row0_iter (row0 : list Z) (rest : list (list Z)) (k : nat) :
  row0 <> [] ->
  Nat.iter k (fun o => o ≫= rotate_row0) (Some (row0 :: rest))
  = Some (Nat.iter k rotate_forward row0 :: rest).
Proof.
  intros Hne. induction k as [|k IH]; [ reflexivity | ].
  rewrite Nat.iter_succ, IH. cbn [mbind option_bind].
  apply rotate_row0_forward.
  intros E. apply (f_equal (@length Z)) in E.
  rewrite (proj1 (rotate_forward_iter row0 k)) in E.
  destruct row0; [ contradiction | discriminate ].
Qed.

(** X13. Deriving the inputs [S] times in a row, each time from the result
    of the time before, gives back the original tokens, [S] being the length
    of row 0: the derivation is a cyclic shift of row 0 and nothing else. *)
Theorem rotate_row0_full_cycle (row0 : list Z) (rest : list (list Z)) :
  row0 <> [] ->
  Nat.iter (length row0) (fun o => o ≫= rotate_row0) (Some (row0 :: rest))
  = Some (row0 :: rest).
Proof.
  intros Hne. rewrite rotate_row0_iter by assumption. do 2 f_equal.
  destruct (rotate_forward_iter row0 (length row0)) as [Hlen Hlook].
  apply list_eq. intros j. destruct (Nat.lt_ge_cases j (length row0)) as [Hj|Hj].
  - rewrite Hlook by assumption.
    now rewrite (Nat.mul_comm (length row0)), Nat.Div0.mod_add, Nat.mod_small.
  - rewrite !lookup_ge_None_2 by lia. reflexivity.
Qed.

Lemma rotate_row0_full_cycle_witness :
  Nat.iter (length [1; 2; 3]) (fun o => o ≫= rotate_row0) (Some ([1; 2; 3] :: [[4; 5; 6]]))
  = Some ([1; 2; 3] :: [[4; 5; 6]]).
Proof. apply (rotate_row0_full_cycle [1; 2; 3] [[4; 5; 6]]). discriminate. Defined.

(** X14. For a well-formed batch the adjusted lengths are as many as the
    source lengths, each lies between [tgt_input_len - S] and
    [tgt_input_len], a sequence of full length [S] gets exactly
    [tgt_input_len], and when the decoder input is as long as the source the
    lengths are unchanged. *)
Theorem adjusted_lengths_bounds (sample : batch) :
  well_formed sample ->
  length (adjust_lengths sample) = length (src_lengths sample) /\
  Forall (fun l => Z.of_nat (size1 (tgt_inputs sample))
                   - Z.of_nat (size1 (src_tokens sample)) <= l
                   <= Z.of_nat (size1 (tgt_inputs sample)))
         (adjust_lengths sample) /\
  (forall i, src_lengths sample !! i = Some (Z.of_nat (size1 (src_tokens sample))) ->
     adjust_lengths sample !! i = Some (Z.of_nat (size1 (tgt_inputs sample)))) /\
  (size1 (tgt_inputs sample) = size1 (src_tokens sample) ->
   adjust_lengths sample = src_lengths sample).
Proof.
  intros Hwf. rewrite (adjust_lengths_exact sample Hwf).
  destruct Hwf as (_ & _ & Hlen & _ & _).
  split; [ apply length_map | ]. split; [ | split ].
  - apply List.Forall_forall. intros l' Hin. apply in_map_iff in Hin as [l [<- Hl]].
    rewrite List.Forall_forall in Hlen. specialize (Hlen l Hl). lia.
  - intros i Hi. rewrite list_lookup_fmap_Some. eexists. split; [ | exact Hi ]. lia.
  - intros E. rewrite E. rewrite <- (map_id (src_lengths sample)) at 2.
    apply map_ext. intros l. lia.
Qed.

Lemma adjusted_lengths_bounds_witness :
  length (adjust_lengths sample2) = length (src_lengths sample2) /\
  Forall (fun l => Z.of_nat (size1 (tgt_inputs sample2))
                   - Z.of_nat (size1 (src_tokens sample2)) <= l
                   <= Z.of_nat (size1 (tgt_inputs sample2)))
         (adjust_lengths sample2) /\
  (forall i, src_lengths sample2 !! i = Some (Z.of_nat (size1 (src_tokens sample2))) ->
     adjust_lengths sample2 !! i = Some (Z.of_nat (size1 (tgt_inputs sample2)))) /\
  (size1 (tgt_inputs sample2) = size1 (src_tokens sample2) ->
   adjust_lengths sample2 = src_lengths sample2).
Proof.
  apply (adjusted_lengths_bounds sample2).
  unfold well_formed. cbn. repeat split; try lia; try discriminate.
  repeat constructor; lia.
Defined.

End StepMore.

(** ** Running statistics and the validation pass *)

Module ReportFacts.

Import Tensor TensorFacts Step StepFacts Report.
Local Open Scope Z_scope.

Section Passes.

Variable logits : Type.
Variable model model_rev :
  list (list Z) -> list Z -> list (list Z) -> (logits * tensor3 Q) * tensor3 Q.
Variable criterion : logits -> list Z -> Q.

(** *** The statistics of an epoch *)

Lemma update_stats_counts (clip_norm : Q) (ob : step_obs) (tl : Q) (s s' : stats) :
  update_stats clip_norm ob tl s = Some s' ->
  st_batch_size s' = st_batch_size s + Z.of_nat (length (src_tokens (ob_sample ob))) /\
  st_clip s' = st_clip s + (if Qlt_le_dec clip_norm (ob_grad_norm ob) then 1 else 0).
Proof.
  unfold update_stats. cbn zeta.
  destruct (num_tokens (ob_sample ob) =? 0); [ discriminate | ].
  destruct (length (src_tokens (ob_sample ob)) =? 0)%nat; [ discriminate | ].
  intros H. inversion H; subst; cbn. split; reflexivity.
Qed.

Lemma train_stats_counts (clip_norm : Q) (batches : list (option step_obs)) :
  forall s s', train_stats logits model model_rev criterion clip_norm batches s = Some s' ->
  st_batch_size s'
    = st_batch_size s
      + sumZ (map (fun ob => Z.of_nat (length (src_tokens (ob_sample ob))))
                  (non_empty batches)) /\
  st_clip s'
    = st_clip s
      + sumZ (map (fun ob => if Qlt_le_dec clip_norm (ob_grad_norm ob) then 1 else 0)
                  (non_empty batches)).
Proof.
  induction batches as [|[ob|] rest IH]; intros s s' H; cbn [train_stats] in H.
  - inversion H; subst. cbn. split; lia.
  - destruct (total_loss _ _ _ _ _) as [tl|]; [ | discriminate ].
    cbn [mbind option_bind] in H.
    destruct (update_stats clip_norm ob tl s) as [s1|] eqn:Hu; [ | discriminate ].
    cbn [mbind option_bind] in H.
    destruct (update_stats_counts _ _ _ _ _ Hu) as (Hb & Hc).
    destruct (IH _ _ H) as (Hb' & Hc').
    unfold non_empty, sumZ in *.
    cbn [omap list_omap mbind option_bind map foldr fold_right].
    split; lia.
  - exact (IH _ _ H).
Qed.

Lemma sumZ_indicator_bounds {X : Type} (f : X -> Z) (l : list X) :
  (forall x, 0 <= f x <= 1) -> 0 <= sumZ (map f l) <= Z.of_nat (length l).
Proof.
  intros Hf. induction l as [|x l IH]; cbn [map sumZ fold_right length]; [ lia | ].
  fold (sumZ (map f l)). specialize (Hf x). lia.
Qed.

Lemma non_empty_length {X : Type} (batches : list (option X)) :
  (length (non_empty batches) <= length batches)%nat.
Proof.
  unfold non_empty. induction batches as [|[x|] rest IH];
    cbn [omap list_omap length] in *; lia.
Qed.

(** X16. At the end of an epoch whose statistics were computed, the
    batch-size accumulator is the number of sequences of the batches that
    were not skipped, the clip accumulator is the number of those batches
    whose gradient norm exceeded the clip threshold, and the logged clip
    rate, taken over all batches of the loader, lies between 0 and 1. *)
Theorem epoch_statistics_count (clip_norm : Q) (batches : list (option step_obs))
    (s : stats) :
  train_stats logits model model_rev criterion clip_norm batches stats0 = Some s ->
  st_batch_size s
    = sumZ (map (fun ob => Z.of_nat (length (src_tokens (ob_sample ob))))
                (non_empty batches)) /\
  st_clip s
    = sumZ (map (fun ob => if Qlt_le_dec clip_norm (ob_grad_norm ob) then 1 else 0)
                (non_empty batches)) /\
  (forall averages, epoch_averages (length batches) s = Some averages ->
     (0 <= nth 5 averages 0 <= 1)%Q).
Proof.
  intros H. destruct (train_stats_counts _ _ _ _ H) as [Hb Hc]. cbn in Hb, Hc.
  split; [ exact Hb | ]. split; [ exact Hc | ].
  intros averages Ha. unfold epoch_averages in Ha.
  destruct (Nat.eqb_spec (length batches) 0) as [|Hn]; [ discriminate | ].
  inversion Ha; subst averages. cbn [nth].
  assert (Hbounds : 0 <= st_clip s <= Z.of_nat (length batches)).
  { rewrite Hc.
    pose proof (sumZ_indicator_bounds
      (fun ob => if Qlt_le_dec clip_norm (ob_grad_norm ob) then 1 else 0)
      (non_empty batches)) as Hs.
    pose proof (non_empty_length batches).
    destruct Hs as [Hs1 Hs2]; [ intros ob; destruct (Qlt_le_dec _ _); lia | lia ]. }
  assert (Hpos : (0 < inject_Z (Z.of_nat (length batches)))%Q).
  { change 0%Q with (inject_Z 0). rewrite <- Zlt_Qlt. lia. }
  split.
  - apply Qle_shift_div_l; [ exact Hpos | ]. rewrite Qmult_0_l.
    change 0%Q with (inject_Z 0). rewrite <- Zle_Qle. lia.
  - apply Qle_shift_div_r; [ exact Hpos | ]. rewrite Qmult_1_l.
    rewrite <- Zle_Qle. lia.
Qed.

(** *** The validation pass *)

Lemma validate_totals_sums (batches : list (option batch)) :
  forall acc r, validate_totals logits model model_rev criterion batches acc = Some r ->
  exists losses,
    Forall2 (fun sample loss =>
               validate_batch_loss logits model model_rev criterion sample = Some loss)
            (non_empty batches) losses /\
    (fst (fst r) == fst (fst acc) + sumQ losses)%Q /\
    snd (fst r) = snd (fst acc) + sumZ (map num_tokens (non_empty batches)) /\
    snd r = snd acc
            + sumZ (map (fun sample => Z.of_nat (length (src_tokens sample)))
                        (non_empty batches)).
Proof.
  induction batches as [|[sample|] rest IH]; intros [[vl nt] bs] r H;
    cbn [validate_totals] in H.
  - inversion H; subst. exists []. cbn. repeat split; try lia; [ constructor | ring ].
  - destruct (validate_batch_loss _ _ _ _ sample) as [loss|] eqn:Hl; [ | discriminate ].
    cbn [mbind option_bind] in H.
    destruct (IH _ _ H) as (losses & HF & Hv & Ht & Hb).
    exists (loss :: losses). unfold non_empty, sumZ, sumQ in *.
    cbn [omap list_omap mbind option_bind map foldr fold_right fst snd] in *.
    split; [ constructor; assumption | ].
    split; [ rewrite Hv; ring | ]. split; lia.
  - exact (IH _ _ H).
Qed.


End Passes.

Lemma epoch_statistics_count_witness :
  exists s,
    train_stats unit model_const model_const criterion_const 4
      [Some (StepObs sample2 (3 # 10000) 5); None; Some (StepObs sample2 (3 # 10000) 3)]
      stats0 = Some s /\
    st_batch_size s = 4 /\ st_clip s = 1.
Proof.
  destruct (train_stats unit model_const model_const criterion_const 4
              [Some (StepObs sample2 (3 # 10000) 5); None; Some (StepObs sample2 (3 # 10000) 3)]
              stats0) as [s|] eqn:Hs; [ | vm_compute in Hs; discriminate Hs ].
  exists s. split; [ reflexivity | ].
  destruct (epoch_statistics_count unit model_const model_const criterion_const 4 _ s Hs)
    as (Hb & Hc & _).
  split; [ rewrite Hb | rewrite Hc ]; reflexivity.
Defined.

End ReportFacts.

(** ** More on the update: what happens to the gradients *)

Module OptimizerMore.

Import Optimizer OptimizerFacts.

Section Gradients.

Variable V : Type.
Variable S : Type.
Variable accumulate : V -> V -> V.
Variable clip_by : Q -> list V -> V -> V.
Variable adam_rule : Q -> option S -> V -> V -> V * S.

Local Abbreviation update := (update V S accumulate clip_by adam_rule).
Local Abbreviation train := (train V S accumulate clip_by adam_rule).

(** X19. A parameter outside the optimiser and outside the clipped set, as
    every parameter of the reverse model is, accumulates the gradient of
    each batch on top of what it held: the update neither clips nor clears
    it; once it holds a gradient it holds one after any number of batches. *)
Theorem reverse_gradients_accumulate (model_parameters : list positive)
    (opt : optimizer) (clip_norm : Q) (w : world V S) (g : gmap positive V)
    (batches : list (gmap positive V)) (p : positive) :
  ~ In p model_parameters -> ~ In p (param_groups opt) ->
  grads V S (update model_parameters opt clip_norm w g) !! p
    = union_with (fun old new => Some (accumulate old new)) (grads V S w !! p) (g !! p) /\
  (is_Some (grads V S w !! p) ->
   is_Some (grads V S (train model_parameters opt clip_norm batches w) !! p)).
Proof.
  intros Hm Ho.
  assert (Hone : forall w g,
            grads V S (update model_parameters opt clip_norm w g) !! p
            = union_with (fun old new => Some (accumulate old new))
                         (grads V S w !! p) (g !! p)).
  { intros w0 g0. unfold Optimizer.update, zero_grad. cbn [grads].
    rewrite fold_delete_other by exact Ho. rewrite step_grads.
    unfold clip_grad_norm_. cbn [grads]. rewrite fold_alter_other by exact Hm.
    unfold backward. cbn [grads]. apply lookup_union_with. }
  split; [ apply Hone | ].
  unfold Optimizer.train. revert w.
  induction batches as [|g0 gs IH]; intros w Hsome; cbn [fold_left]; [ exact Hsome | ].
  apply IH. rewrite Hone. destruct Hsome as [v ->].
  destruct (g0 !! p); cbn; eauto.
Qed.

(** *** The step of a forward parameter *)

Lemma fold_alter_in (f : V -> V) (ps : list positive) (gr : gmap positive V) (p : positive) :
  List.NoDup ps -> In p ps ->
  fold_left (fun gr q => alter f q gr) ps gr !! p = f <$> gr !! p.
Proof.
  intros Hnd. revert gr. induction Hnd as [|q qs Hq Hnd IH]; intros gr Hp; [ destruct Hp | ].
  cbn [fold_left]. destruct Hp as [->|Hin].
  - rewrite fold_alter_other by exact Hq. apply lookup_alter_eq.
  - rewrite IH by exact Hin. rewrite lookup_alter_ne; [ reflexivity | ].
    intros ->. contradiction.
Qed.

Lemma step_param_state_other (learning_rate : Q) (w : world V S) (q p : positive) :
  q <> p ->
  adam_state V S (step_param V S adam_rule learning_rate w q) !! p = adam_state V S w !! p.
Proof.
  intros Hne. unfold step_param.
  destruct (params V S w !! q); [ | reflexivity ].
  destruct (grads V S w !! q); [ | reflexivity ].
  destruct (adam_rule _ _ _ _). cbn. now apply lookup_insert_ne.
Qed.

Lemma fold_step_other (learning_rate : Q) (ps : list positive) (w : world V S) (p : positive) :
  ~ In p ps ->
  params V S (fold_left (step_param V S adam_rule learning_rate) ps w) !! p
    = params V S w !! p.
Proof.
  revert w. induction ps as [|q qs IH]; intros w Hp; cbn [fold_left]; [ reflexivity | ].
  rewrite IH by (intros Hin; apply Hp; now right).
  apply step_param_params_other. intros ->. apply Hp. now left.
Qed.

Lemma fold_step_in (learning_rate : Q) (ps : list positive) (w : world V S)
    (p : positive) (v gp : V) :
  List.NoDup ps -> In p ps ->
  params V S w !! p = Some v -> grads V S w !! p = Some gp ->
  params V S (fold_left (step_param V S adam_rule learning_rate) ps w) !! p
    = Some (fst (adam_rule learning_rate (adam_state V S w !! p) v gp)).
Proof.
  intros Hnd. revert w. induction Hnd as [|q qs Hq Hnd IH]; intros w Hp Hv Hg; [ destruct Hp | ].
  cbn [fold_left]. destruct Hp as [->|Hin].
  - rewrite fold_step_other by exact Hq. unfold step_param. rewrite Hv, Hg.
    destruct (adam_rule _ _ _ _). cbn. apply lookup_insert_eq.
  - assert (Hne : q <> p) by (intros ->; contradiction).
    rewrite (IH _ Hin).
    + now rewrite step_param_state_other.
    + now rewrite step_param_params_other.
    + now rewrite step_param_grads.
Qed.

(** X20. A parameter of the forward model that holds a value and no stale
    gradient takes one Adam step per batch: its new value is what the Adam
    rule makes of its old value, its optimiser state and the gradient of
    the batch as [clip_grad_norm_] rescaled it. *)
Theorem forward_parameter_takes_adam_step (model_parameters : list positive)
    (learning_rate clip_norm : Q) (w : world V S) (g : gmap positive V)
    (p : positive) (v gp : V) :
  List.NoDup model_parameters -> In p model_parameters ->
  params V S w !! p = Some v -> grads V S w !! p = None -> g !! p = Some gp ->
  params V S (update model_parameters (Adam model_parameters learning_rate) clip_norm w g) !! p
  = Some (fst (adam_rule learning_rate (adam_state V S w !! p) v
                (clip_by clip_norm
                   (omap (fun q => grads V S (backward V S accumulate g w) !! q)
                         model_parameters)
                   gp))).
Proof.
  intros Hnd Hp Hv Hnone Hg. unfold Optimizer.update, zero_grad. cbn [params].
  unfold step. cbn [param_groups lr Adam].
  rewrite (fold_step_in learning_rate model_parameters _ p v
             (clip_by clip_norm
                (omap (fun q => grads V S (backward V S accumulate g w) !! q)
                      model_parameters) gp) Hnd Hp).
  - reflexivity.
  - exact Hv.
  - unfold clip_grad_norm_. cbn [grads].
    rewrite fold_alter_in by assumption.
    unfold backward. cbn [grads]. rewrite lookup_union_with, Hnone, Hg. reflexivity.
Qed.

End Gradients.

Lemma reverse_gradients_accumulate_witness :
  grads Q unit (Optimizer.update Q unit Qplus (fun _ _ v => v) descent [1%positive]
                  (Adam [1%positive] (1 # 10)) 4 world2 gradients2) !! 2%positive
    = union_with (fun old new => Some (Qplus old new))
                 (grads Q unit world2 !! 2%positive) (gradients2 !! 2%positive) /\
  (is_Some (grads Q unit world2 !! 2%positive) ->
   is_Some (grads Q unit (Optimizer.train Q unit Qplus (fun _ _ v => v) descent [1%positive]
                            (Adam [1%positive] (1 # 10)) 4 [gradients2; gradients2] world2)
              !! 2%positive)).
Proof.
  apply (reverse_gradients_accumulate Q unit Qplus (fun _ _ v => v) descent).
  - intros [H|[]]. discriminate H.
  - intros [H|[]]. discriminate H.
Defined.

Lemma forward_parameter_takes_adam_step_witness :
  params Q unit (Optimizer.update Q unit Qplus (fun _ _ v => v) descent [1%positive]
                   (Adam [1%positive] (1 # 10)) 4 world2 gradients2) !! 1%positive
  = Some (fst (descent (1 # 10) (adam_state Q unit world2 !! 1%positive) 10%Q
                 ((fun _ _ v => v) 4%Q
                    (omap (fun q => grads Q unit (backward Q unit Qplus gradients2 world2) !! q)
                          [1%positive])
                    1%Q))).
Proof.
  apply (forward_parameter_takes_adam_step Q unit Qplus (fun _ _ v => v) descent
           [1%positive] (1 # 10) 4 world2 gradients2 1%positive 10%Q 1%Q).
  - repeat constructor. intros [].
  - now left.
  - reflexivity.
  - reflexivity.
  - reflexivity.
Defined.

End OptimizerMore.
